(** * gxxw_crwlr: the news crawler of [crawler.py]

    A shallow embedding of the extraction-and-normalisation pipeline
    ([categorize_news], [check_url_availability], [parse_date],
    [insert_news_data], [extract_news]), of the cleaning
    ([clean_invalid_links]) and of the run over the sites ([main]),
    together with the library behaviour those functions rest on (regular
    expressions, [datetime.strptime], [urllib.parse.urljoin], the
    exception hierarchy), the properties the specification states about
    them, and further properties of the code. *)

From Stdlib Require Import String.
From Stdlib Require Import List NArith ZArith Bool Ascii Lia.
Import ListNotations.
Import Corelib.Init.Datatypes.

Set Implicit Arguments.

(** ** Python strings

    A Python [str] is a sequence of Unicode code points; [len] counts code
    points.  Literals are written as UTF-8 text and decoded by [u]. *)

Definition pystr := list N.

Fixpoint utf8_decode (need : nat) (acc : N) (bs : list N) : pystr :=
  match bs with
  | [] => []
  | b :: bs' =>
      match need with
      | S k =>
          let acc' := (acc * 64 + b mod 64)%N in
          match k with
          | O => acc' :: utf8_decode 0 0 bs'
          | S _ => utf8_decode k acc' bs'
          end
      | O =>
          if (b <? 128)%N then b :: utf8_decode 0 0 bs'
          else if (b <? 224)%N then utf8_decode 1 (b mod 32)%N bs'
          else if (b <? 240)%N then utf8_decode 2 (b mod 16)%N bs'
          else utf8_decode 3 (b mod 8)%N bs'
      end
  end.

Definition u (s : string) : pystr :=
  utf8_decode 0 0 (map N_of_ascii (list_ascii_of_string s)).

Definition str_eqb (a b : pystr) : bool :=
  if list_eq_dec N.eq_dec a b then true else false.

Definition mem_chr (c : N) (s : pystr) : bool := existsb (N.eqb c) s.

Fixpoint startswith (p s : pystr) : bool :=
  match p, s with
  | [], _ => true
  | _ :: _, [] => false
  | a :: p', b :: s' => (a =? b)%N && startswith p' s'
  end.

(** [kw in s]: substring test. *)
Fixpoint contains (kw s : pystr) : bool :=
  startswith kw s ||
  match s with
  | [] => false
  | _ :: s' => contains kw s'
  end.

(** ** Exceptions

    The classes the program names in its [except] clauses and the ones its
    libraries raise, with their base classes, so that an [except] clause is
    an [issubclass] test as in Python. *)

Inductive exc_class :=
| Exception | ValueError | UnicodeError | TypeError | OSError
| LocationValueError | LocationParseError
| RequestException | HTTPError | ConnectionError | ProxyError | SSLError
| Timeout | ConnectTimeout | ReadTimeout | URLRequired | TooManyRedirects
| MissingSchema | InvalidSchema | InvalidURL | InvalidHeader
| InvalidProxyURL | ChunkedEncodingError | ContentDecodingError
| StreamConsumedError | RetryError | UnrewindableBodyError
| MySQLError | Error | DatabaseError | InterfaceError | DataError
| OperationalError | IntegrityError | InternalError | ProgrammingError
| NotSupportedError.

Definition exc_class_eq_dec (a b : exc_class) : {a = b} + {a <> b}.
Proof. decide equality. Defined.

Definition class_eqb (a b : exc_class) : bool :=
  if exc_class_eq_dec a b then true else false.

(** The direct base classes ([__bases__]), as declared in [builtins],
    [urllib3.exceptions], [requests.exceptions] and [pymysql.err].  The
    [HTTPError] of [urllib3], a second base of [LocationValueError] and of
    [ContentDecodingError], is left out: it derives from [Exception] only
    and no handler of the program names it. *)
Definition bases (c : exc_class) : list exc_class :=
  match c with
  | Exception => []
  | ValueError | TypeError | OSError => [Exception]
  | UnicodeError => [ValueError]
  | LocationValueError => [ValueError]
  | LocationParseError => [LocationValueError]
  | RequestException => [OSError]
  | HTTPError | ConnectionError | Timeout | URLRequired | TooManyRedirects
  | ChunkedEncodingError | ContentDecodingError | RetryError
  | UnrewindableBodyError => [RequestException]
  | ProxyError | SSLError => [ConnectionError]
  | ConnectTimeout => [ConnectionError; Timeout]
  | ReadTimeout => [Timeout]
  | MissingSchema | InvalidSchema | InvalidURL | InvalidHeader =>
      [RequestException; ValueError]
  | InvalidProxyURL => [InvalidURL]
  | StreamConsumedError => [RequestException; TypeError]
  | MySQLError => [Exception]
  | Error => [MySQLError]
  | DatabaseError | InterfaceError => [Error]
  | DataError | OperationalError | IntegrityError | InternalError
  | ProgrammingError | NotSupportedError => [DatabaseError]
  end.

Fixpoint subclass_upto (fuel : nat) (c d : exc_class) : bool :=
  class_eqb c d ||
  match fuel with
  | O => false
  | S k => existsb (fun b => subclass_upto k b d) (bases c)
  end.

(** No chain of base classes is longer than six. *)
Definition issubclass (c d : exc_class) : bool := subclass_upto 6 c d.

(** An exception instance: its class and [args[0]] when that is a number
    (the MySQL error code), [0] otherwise. *)
Record exn := Exn { exn_class : exc_class; exn_code : Z }.

Inductive result (A : Type) :=
| Ok (a : A)
| Raise (e : exn).
Arguments Ok {A} a.
Arguments Raise {A} e.

Definition bind {A B} (r : result A) (k : A -> result B) : result B :=
  match r with
  | Ok a => k a
  | Raise e => Raise e
  end.

Notation "x <- r ;; k" := (bind r (fun x => k))
  (at level 61, r at next level, right associativity).

(** [except (C1, ..., Cn)] catches [e] when its class derives from one of
    the listed classes. *)
Definition catches (handlers : list exc_class) (e : exn) : bool :=
  existsb (issubclass (exn_class e)) handlers.

Definition is_ok {A} (r : result A) : bool :=
  match r with Ok _ => true | Raise _ => false end.

(** ** Regular expressions ([re])

    The fragment of [re] syntax that [date_pattern], [chinese_pattern] and
    the patterns [datetime.strptime] builds are written in.  [\d] on a
    [str] pattern is any Unicode decimal digit (category Nd). *)

(** The code point of digit zero of every block of decimal digits (Unicode
    14.0.0, the database of CPython 3.11); the ten digits of a block are
    consecutive. *)
Definition decimal_zeros : list N :=
  [0x30; 0x660; 0x6F0; 0x7C0; 0x966; 0x9E6; 0xA66; 0xAE6; 0xB66; 0xBE6;
   0xC66; 0xCE6; 0xD66; 0xDE6; 0xE50; 0xED0; 0xF20; 0x1040; 0x1090; 0x17E0;
   0x1810; 0x1946; 0x19D0; 0x1A80; 0x1A90; 0x1B50; 0x1BB0; 0x1C40; 0x1C50;
   0xA620; 0xA8D0; 0xA900; 0xA9D0; 0xA9F0; 0xAA50; 0xABF0; 0xFF10; 0x104A0;
   0x10D30; 0x11066; 0x110F0; 0x11136; 0x111D0; 0x112F0; 0x11450; 0x114D0;
   0x11650; 0x116C0; 0x11730; 0x118E0; 0x11950; 0x11C50; 0x11D50; 0x11DA0;
   0x16A60; 0x16AC0; 0x16B50; 0x1D7CE; 0x1D7D8; 0x1D7E2; 0x1D7EC; 0x1D7F6;
   0x1E140; 0x1E2F0; 0x1E950; 0x1FBF0]%N.

(** [unicodedata.decimal]: the value of a decimal digit. *)
Definition decimal (c : N) : option N :=
  match find (fun z => (z <=? c)%N && (c <? z + 10)%N) decimal_zeros with
  | Some z => Some (c - z)%N
  | None => None
  end.

Definition is_digit (c : N) : bool :=
  match decimal c with Some _ => true | None => false end.

Inductive regex :=
| Lit (c : N)                          (* a literal character *)
| Digit                                (* \d *)
| Range (lo hi : N)                    (* [lo-hi] *)
| OneOf (cs : list N)                  (* [abc] *)
| Cat (r1 r2 : regex)                  (* r1r2 *)
| Alt (r1 r2 : regex)                  (* r1|r2 *)
| Rep (lo extra : nat) (r : regex).    (* r{lo,lo+extra}, greedy *)

Definition Opt (r : regex) : regex := Rep 0 1 r.

Definition accepts_chr (p : N -> bool) (s : pystr) : list pystr :=
  match s with
  | c :: s' => if p c then [s'] else []
  | [] => []
  end.

(** [m] applied exactly [n] times. *)
Fixpoint exactly (m : pystr -> list pystr) (n : nat) (s : pystr)
  : list pystr :=
  match n with
  | O => [s]
  | S k => flat_map (exactly m k) (m s)
  end.

(** [m] applied at most [n] times, the longest repetition first. *)
Fixpoint upto (m : pystr -> list pystr) (n : nat) (s : pystr)
  : list pystr :=
  match n with
  | O => [s]
  | S k => flat_map (upto m k) (m s) ++ [s]
  end.

(** The backtracking matcher: every way [r] matches a prefix of [s], as
    the text left after the match, in the order the engine tries them
    (first alternative first, longest repetition first).  The head of the
    list is the match [re] reports. *)
Fixpoint rmatch (r : regex) (s : pystr) : list pystr :=
  match r with
  | Lit c => accepts_chr (N.eqb c) s
  | Digit => accepts_chr is_digit s
  | Range lo hi => accepts_chr (fun c => (lo <=? c)%N && (c <=? hi)%N) s
  | OneOf cs => accepts_chr (fun c => mem_chr c cs) s
  | Cat r1 r2 => flat_map (rmatch r2) (rmatch r1 s)
  | Alt r1 r2 => rmatch r1 s ++ rmatch r2 s
  | Rep lo extra r1 =>
      flat_map (upto (rmatch r1) extra) (exactly (rmatch r1) lo s)
  end.

(** The text consumed between [s] and what is left of it. *)
Definition consumed (s rest : pystr) : pystr :=
  firstn (length s - length rest) s.

(** [pattern.match(s)]: the match at the start of [s], if any. *)
Definition re_match (r : regex) (s : pystr) : option pystr :=
  match rmatch r s with
  | rest :: _ => Some (consumed s rest)
  | [] => None
  end.

(** [pattern.search(s)]: the match at the leftmost position that has one,
    as (text before, match, text after). *)
Fixpoint re_search_from (r : regex) (before s : pystr)
  : option (pystr * pystr * pystr) :=
  match rmatch r s with
  | rest :: _ => Some (rev before, consumed s rest, rest)
  | [] =>
      match s with
      | [] => None
      | c :: s' => re_search_from r (c :: before) s'
      end
  end.

Definition re_search (r : regex) (s : pystr)
  : option (pystr * pystr * pystr) :=
  re_search_from r [] s.

Definition chr (a : ascii) : N := N_of_ascii a.

Definition digits (n : nat) : regex := Rep n 0 Digit.
Definition digits_1_2 : regex := Rep 1 1 Digit.
Definition sep_opt : regex := Opt (OneOf [chr "-"; chr "/"]).
(** The pattern that matches the empty text only. *)
Definition Eps : regex := Rep 0 0 Digit.

Fixpoint cat_all (rs : list regex) : regex :=
  match rs with
  | [] => Eps
  | [r] => r
  | r :: rs' => Cat r (cat_all rs')
  end.

(** The five alternatives of [date_pattern], in the order they are
    written: [\d{4}[-/]?\d{1,2}[-/]?\d{1,2}], [\d{1,2}[-/]?\d{1,2}[-/]?\d{4}],
    [\d{4}年\d{1,2}月\d{1,2}日], [\d{2}\d{4}/\d{2}], [\d{2}\d{4}]. *)
Definition date_shapes : list regex :=
  [ cat_all [digits 4; sep_opt; digits_1_2; sep_opt; digits_1_2];
    cat_all [digits_1_2; sep_opt; digits_1_2; sep_opt; digits 4];
    cat_all [digits 4; Lit 0x5E74; digits_1_2; Lit 0x6708; digits_1_2;
             Lit 0x65E5];
    cat_all [digits 2; digits 4; Lit (chr "/"); digits 2];
    cat_all [digits 2; digits 4] ].

Fixpoint alternation (r : regex) (rs : list regex) : regex :=
  match rs with
  | [] => r
  | r' :: rs' => Alt r (alternation r' rs')
  end.

Definition date_pattern : regex :=
  match date_shapes with
  | r :: rs => alternation r rs
  | [] => Eps
  end.

(** [chinese_pattern], the class [一-龥]. *)
Definition chinese_pattern : regex := Range 0x4E00 0x9FA5.

(** [date_pattern.search(text)] followed by [match.group(1)]: group 1
    encloses the whole pattern. *)
Definition find_date (text : pystr) : option pystr :=
  match re_search date_pattern text with
  | Some (_, m, _) => Some m
  | None => None
  end.

(** ** [datetime.strptime] and [datetime.strftime]

    [strptime] turns the format into a regular expression with one named
    group per directive ([_strptime.TimeRE]), matches it at the start of
    the text, rejects text left over, converts the groups with [int] and
    builds the date, which fails when the date does not exist. *)

Inductive directive := dY | dm | dd.

Inductive piece :=
| PLit (c : N)
| PDir (d : directive).

(** The patterns of [%Y], [%m] and [%d]: [\d\d\d\d], [1[0-2]|0[1-9]|[1-9]]
    and [3[0-1]|[1-2]\d|0[1-9]|[1-9]| [1-9]]. *)
Definition lit (a : ascii) : regex := Lit (chr a).
Definition rng (a b : ascii) : regex := Range (chr a) (chr b).

Definition directive_re (d : directive) : regex :=
  match d with
  | dY => cat_all [Digit; Digit; Digit; Digit]
  | dm => alternation (Cat (lit "1") (rng "0" "2"))
            [Cat (lit "0") (rng "1" "9"); rng "1" "9"]
  | dd => alternation (Cat (lit "3") (rng "0" "1"))
            [Cat (rng "1" "2") Digit; Cat (lit "0") (rng "1" "9");
             rng "1" "9"; Cat (lit " ") (rng "1" "9")]
  end.

(** [TimeRE.pattern] on the directives the program's formats use; another
    directive or a stray [%] gives [None].  The formats hold no blank and
    no character that [re] treats as syntax, so every other character
    stands for itself. *)
Fixpoint compile_format (format : pystr) : option (list piece) :=
  match format with
  | [] => Some []
  | c :: rest =>
      if (c =? chr "%")%N then
        match rest with
        | [] => None
        | d :: rest' =>
            let dir :=
              if (d =? chr "Y")%N then Some dY
              else if (d =? chr "m")%N then Some dm
              else if (d =? chr "d")%N then Some dd
              else None in
            match dir, compile_format rest' with
            | Some x, Some ps => Some (PDir x :: ps)
            | _, _ => None
            end
        end
      else
        match compile_format rest with
        | Some ps => Some (PLit c :: ps)
        | None => None
        end
  end.

Definition groups := list (directive * pystr).

(** The matcher of a compiled format: as [rmatch], with the text of every
    group. *)
Fixpoint fmatch (ps : list piece) (s : pystr) : list (groups * pystr) :=
  match ps with
  | [] => [([], s)]
  | PLit c :: ps' => flat_map (fmatch ps') (rmatch (Lit c) s)
  | PDir d :: ps' =>
      flat_map
        (fun s' =>
           map (fun gr => ((d, consumed s s') :: fst gr, snd gr))
               (fmatch ps' s'))
        (rmatch (directive_re d) s)
  end.

Definition directive_eqb (a b : directive) : bool :=
  match a, b with
  | dY, dY | dm, dm | dd, dd => true
  | _, _ => false
  end.

Fixpoint group (d : directive) (g : groups) : option pystr :=
  match g with
  | [] => None
  | (d', s) :: g' => if directive_eqb d d' then Some s else group d g'
  end.

(** [int] on the text of a group: decimal digits, after the blank that
    [%d] admits and [int] strips. *)
Definition int_of (s : pystr) : N :=
  fold_left
    (fun acc c => match decimal c with
                  | Some v => (10 * acc + v)%N
                  | None => acc
                  end)
    s 0%N.

(** The date part of a [datetime]; the time of day is midnight in every
    value the program builds. *)
Record datetime := mkdate { year : N; month : N; day : N }.

Definition is_leap (y : N) : bool :=
  ((y mod 4 =? 0) && (negb (y mod 100 =? 0) || (y mod 400 =? 0)))%N.

Definition days_in_month (y m : N) : N :=
  if (m =? 2)%N then (if is_leap y then 29 else 28)%N
  else if ((m =? 4) || (m =? 6) || (m =? 9) || (m =? 11))%N then 30%N
  else 31%N.

(** The check of the [date] constructor. *)
Definition valid_date (y m d : N) : bool :=
  ((1 <=? y) && (y <=? 9999) && (1 <=? m) && (m <=? 12) && (1 <=? d)
   && (d <=? days_in_month y m))%N.

Definition value_error : exn := Exn ValueError 0.

Definition strptime (data_string format : pystr) : result datetime :=
  match compile_format format with
  | None => Raise value_error
  | Some ps =>
      match fmatch ps data_string with
      | [] => Raise value_error
      | (g, rest) :: _ =>
          match rest with
          | _ :: _ => Raise value_error
          | [] =>
              let field d default :=
                match group d g with
                | Some s => int_of s
                | None => default
                end in
              let y := field dY 1900%N in
              let m := field dm 1%N in
              let d := field dd 1%N in
              if valid_date y m d then Ok (mkdate y m d)
              else Raise value_error
          end
      end
  end.

(** [date_obj.replace(day=d)] *)
Definition replace_day (t : datetime) (d : N) : result datetime :=
  if valid_date (year t) (month t) d then Ok (mkdate (year t) (month t) d)
  else Raise value_error.

Fixpoint decimal_text (fuel : nat) (n : N) (acc : pystr) : pystr :=
  let acc' := (chr "0" + n mod 10)%N :: acc in
  match fuel with
  | O => acc'
  | S k => if (n / 10 =? 0)%N then acc' else decimal_text k (n / 10) acc'
  end.

Definition two_digits (n : N) : pystr :=
  [(chr "0" + (n / 10) mod 10)%N; (chr "0" + n mod 10)%N].

(** [strftime('%Y-%m-%d')]; the year as the C library of Linux writes it,
    without padding (four digits from the year 1000 on). *)
Definition strftime_ymd (t : datetime) : pystr :=
  decimal_text 4 (year t) [] ++ [chr "-"] ++ two_digits (month t)
  ++ [chr "-"] ++ two_digits (day t).

(** ** The crawler: date parsing *)

Definition date_formats : list pystr :=
  [u "%Y年%m月%d日"; u "%Y%m%d"; u "%Y/%m/%d"; u "%Y-%m-%d"; u "%Y-%m";
   u "%m%d%Y"; u "%d%Y/%m"].

(** The loop of [parse_date] over the formats still to try. *)
Fixpoint parse_date_with (formats : list pystr) (date_str : pystr)
  : result datetime :=
  match formats with
  | [] => Raise value_error
  | fmt :: rest =>
      let attempt :=
        date_obj <- strptime date_str fmt ;;
        if str_eqb fmt (u "%Y-%m") then replace_day date_obj 1
        else Ok date_obj in
      match attempt with
      | Ok date_obj => Ok date_obj
      | Raise e =>
          if catches [ValueError] e then parse_date_with rest date_str
          else Raise e
      end
  end.

Definition parse_date (date_str : pystr) : result datetime :=
  parse_date_with date_formats date_str.

(** ** The parsed document ([bs4])

    A [BeautifulSoup] tree: strings that [get_text] returns
    ([NavigableString], [CData]), strings it leaves out ([Comment],
    [Doctype] and the like), and tags with their attributes and contents.
    The root is the [BeautifulSoup] object itself, a tag named
    [[document]] that has no parent. *)

#[warnings="-register-all"]
Inductive node :=
| Text (s : pystr)
| Comment (s : pystr)
| Tag (name : pystr) (attrs : list (pystr * pystr)) (contents : list node).

(** [tag.get(key)] *)
Fixpoint attr_get (attrs : list (pystr * pystr)) (key : pystr)
  : option pystr :=
  match attrs with
  | [] => None
  | (k, v) :: rest => if str_eqb k key then Some v else attr_get rest key
  end.

Definition get (n : node) (key : pystr) : option pystr :=
  match n with
  | Tag _ attrs _ => attr_get attrs key
  | _ => None
  end.

(** [str.isspace] of one character. *)
Definition is_space (c : N) : bool :=
  ((9 <=? c) && (c <=? 13) || (28 <=? c) && (c <=? 32) || (c =? 0x85)
   || (c =? 0xA0) || (c =? 0x1680) || (0x2000 <=? c) && (c <=? 0x200A)
   || (c =? 0x2028) || (c =? 0x2029) || (c =? 0x202F) || (c =? 0x205F)
   || (c =? 0x3000))%N.

Fixpoint lstrip_by (p : N -> bool) (s : pystr) : pystr :=
  match s with
  | c :: s' => if p c then lstrip_by p s' else s
  | [] => []
  end.

(** [str.strip()] *)
Definition strip (s : pystr) : pystr :=
  rev (lstrip_by is_space (rev (lstrip_by is_space s))).

(** [element.get_text()]: the strings below the element, joined. *)
Fixpoint get_text (n : node) : pystr :=
  match n with
  | Text s => s
  | Comment _ => []
  | Tag _ _ contents => flat_map get_text contents
  end.

(** [element.get_text(strip=True)]: every string stripped, the empty ones
    dropped. *)
Fixpoint get_text_strip (n : node) : pystr :=
  match n with
  | Text s => strip s
  | Comment _ => []
  | Tag _ _ contents => flat_map get_text_strip contents
  end.

(** The tags [<a href=...>] at or below [n] in document order, each with
    its chain of parents, the nearest first. *)
Fixpoint links_below (parents : list node) (n : node)
  : list (node * list node) :=
  match n with
  | Tag name attrs contents =>
      (if str_eqb name (u "a") then
         match attr_get attrs (u "href") with
         | Some _ => [(n, parents)]
         | None => []
         end
       else [])
      ++ flat_map (links_below (n :: parents)) contents
  | _ => []
  end.

(** [soup.find_all('a', href=True)]: the search covers the descendants of
    [soup]. *)
Definition find_all_a_href (soup : node) : list (node * list node) :=
  match soup with
  | Tag _ _ contents => flat_map (links_below [soup]) contents
  | _ => []
  end.

(** ** What the model takes from the interpreter and its libraries

    Tables and algorithms that the program reaches through a library call
    and that are not written out here. *)

Record runtime := {
  (** [str.lower()] on a string that holds a character outside ASCII and
      the Chinese ideographs (the Unicode case tables and the rule for a
      final sigma) *)
  unicode_lower : pystr -> pystr;
  (** [html.unescape] on a string that holds [&]: the substitution of the
      character references, with the table of HTML 5 entity names *)
  charref_sub : pystr -> pystr;
  (** the checks [urlsplit] runs on a host in brackets
      ([_check_bracketed_netloc]) and on a host outside ASCII
      ([_checknetloc], NFKC normalisation): [true] when the host is refused *)
  netloc_refused : pystr -> bool;
  (** [BeautifulSoup(html_content, 'html.parser')] *)
  html_parser : pystr -> result node
}.

Definition is_ascii (c : N) : bool := (c <? 128)%N.

(** The ideographs U+4E00 to U+9FFF; they have no case. *)
Definition is_ideograph (c : N) : bool := ((0x4E00 <=? c) && (c <=? 0x9FFF))%N.

Definition ascii_lower (c : N) : N :=
  if ((chr "A" <=? c) && (c <=? chr "Z"))%N then (c + 32)%N else c.

(** [str.lower()] *)
Definition lower (rt : runtime) (s : pystr) : pystr :=
  if forallb (fun c => is_ascii c || is_ideograph c) s then map ascii_lower s
  else unicode_lower rt s.

(** ** The crawler: categories *)

(** A [dict] keeps the order in which its keys were written. *)
Definition category_mapping : list (pystr * list pystr) :=
  [ (u "招生", [u "招生"; u "录取"; u "admissions"]);
    (u "科研", [u "实验"; u "发现"; u "突破"; u "discovery"]);
    (u "校园", [u "校园"; u "校园生活"; u "campus"]);
    (u "大学", [u "大学"; u "学院"; u "university"]);
    (u "学术", [u "研究"; u "学术"; u "论文"; u "science"; u "research"]);
    (u "活动", [u "活动"; u "讲座"; u "会议"; u "event"; u "forum"]);
    (u "公告", [u "通知"; u "公告"; u "声明"; u "announcement"]) ].

(** The loop of [categorize_news] over the items of the mapping. *)
Fixpoint categorize_in (items : list (pystr * list pystr))
  (title_lower : pystr) : pystr :=
  match items with
  | [] => u "其他"
  | (category, keywords) :: rest =>
      if existsb (fun kw => contains kw title_lower) keywords then category
      else categorize_in rest title_lower
  end.

Definition categorize_news (rt : runtime) (title : pystr) : pystr :=
  let title_lower := lower rt title in
  categorize_in category_mapping title_lower.

(** ** [urllib.parse.urljoin] (CPython 3.11) *)

(** [s.split(c, 1)] when [c] occurs in [s]: the text before and after its
    first occurrence. *)
Fixpoint split_first (c : N) (s : pystr) : option (pystr * pystr) :=
  match s with
  | [] => None
  | x :: s' =>
      if (x =? c)%N then Some ([], s')
      else
        match split_first c s' with
        | Some (a, b) => Some (x :: a, b)
        | None => None
        end
  end.

(** [s.split(c)] *)
Fixpoint split_on (c : N) (s : pystr) : list pystr :=
  match s with
  | [] => [[]]
  | x :: s' =>
      if (x =? c)%N then [] :: split_on c s'
      else
        match split_on c s' with
        | seg :: segs => (x :: seg) :: segs
        | [] => [[x]]
        end
  end.

(** [c.join(parts)] *)
Fixpoint join (c : N) (parts : list pystr) : pystr :=
  match parts with
  | [] => []
  | [p] => p
  | p :: rest => p ++ c :: join c rest
  end.

Definition nonempty (s : pystr) : bool :=
  match s with [] => false | _ :: _ => true end.

Definition uses_relative : list pystr :=
  map u ["ftp"; "http"; "gopher"; "nntp"; "imap"; "wais"; "file"; "https";
         "shttp"; "mms"; "prospero"; "rtsp"; "rtspu"; "sftp"; "svn";
         "svn+ssh"; "ws"; "wss"]%string ++ [[]].

Definition uses_netloc : list pystr :=
  map u ["ftp"; "http"; "gopher"; "nntp"; "telnet"; "imap"; "wais"; "file";
         "mms"; "https"; "shttp"; "snews"; "prospero"; "rtsp"; "rtspu";
         "rsync"; "svn"; "svn+ssh"; "sftp"; "nfs"; "git"; "git+ssh"; "ws";
         "wss"]%string ++ [[]].

Definition uses_params : list pystr :=
  map u ["ftp"; "hdl"; "prospero"; "http"; "imap"; "https"; "shttp"; "rtsp";
         "rtspu"; "sip"; "sips"; "mms"; "sftp"; "tel"]%string ++ [[]].

Definition str_in (s : pystr) (l : list pystr) : bool := existsb (str_eqb s) l.

Definition c0_or_space (c : N) : bool := (c <=? 0x20)%N.

Definition unsafe_byte (c : N) : bool := ((c =? 9) || (c =? 13) || (c =? 10))%N.

Definition ascii_alpha (c : N) : bool :=
  ((chr "a" <=? c) && (c <=? chr "z") || (chr "A" <=? c) && (c <=? chr "Z"))%N.

Definition scheme_char (c : N) : bool :=
  (ascii_alpha c || (chr "0" <=? c) && (c <=? chr "9") || (c =? chr "+")
   || (c =? chr "-") || (c =? chr "."))%N.

(** The text up to the first of [/], [?], [#], and the text from there on
    ([_splitnetloc]). *)
Fixpoint splitnetloc (s : pystr) : pystr * pystr :=
  match s with
  | [] => ([], [])
  | x :: s' =>
      if ((x =? chr "/") || (x =? chr "?") || (x =? chr "#"))%N then ([], s)
      else let (a, b) := splitnetloc s' in (x :: a, b)
  end.

Record split_result := {
  sp_scheme : pystr; sp_netloc : pystr; sp_path : pystr;
  sp_query : pystr; sp_fragment : pystr
}.

Definition urlsplit (rt : runtime) (url scheme : pystr)
  : result split_result :=
  let url := lstrip_by c0_or_space url in
  let scheme := rev (lstrip_by c0_or_space (rev (lstrip_by c0_or_space scheme))) in
  let url := filter (fun c => negb (unsafe_byte c)) url in
  let scheme := filter (fun c => negb (unsafe_byte c)) scheme in
  let (scheme, url) :=
    match split_first (chr ":") url with
    | Some (c :: pre, post) =>
        if ascii_alpha c && forallb scheme_char (c :: pre)
        then (map ascii_lower (c :: pre), post)
        else (scheme, url)
    | _ => (scheme, url)
    end in
  let (netloc, url) :=
    if startswith (u "//") url then splitnetloc (skipn 2 url) else ([], url) in
  let opened := mem_chr (chr "[") netloc in
  let closed := mem_chr (chr "]") netloc in
  if xorb opened closed then Raise value_error
  else if opened && closed && netloc_refused rt netloc then Raise value_error
  else
    let (url, fragment) :=
      match split_first (chr "#") url with
      | Some (a, b) => (a, b)
      | None => (url, [])
      end in
    let (url, query) :=
      match split_first (chr "?") url with
      | Some (a, b) => (a, b)
      | None => (url, [])
      end in
    if nonempty netloc && negb (forallb is_ascii netloc)
       && netloc_refused rt netloc
    then Raise value_error
    else Ok {| sp_scheme := scheme; sp_netloc := netloc; sp_path := url;
               sp_query := query; sp_fragment := fragment |}.

(** [_splitparams]: the parameters after the first [;] of the last segment
    of the path. *)
Definition splitparams (url : pystr) : pystr * pystr :=
  let segs := split_on (chr "/") url in
  match split_first (chr ";") (last segs []) with
  | Some (a, b) => (join (chr "/") (removelast segs ++ [a]), b)
  | None => (url, [])
  end.

Record parse_result := {
  scheme : pystr; netloc : pystr; path : pystr; params : pystr;
  query : pystr; fragment : pystr
}.

Definition urlparse (rt : runtime) (url default_scheme : pystr)
  : result parse_result :=
  sp <- urlsplit rt url default_scheme ;;
  let (url, params) :=
    if str_in (sp_scheme sp) uses_params && mem_chr (chr ";") (sp_path sp)
    then splitparams (sp_path sp)
    else (sp_path sp, []) in
  Ok {| scheme := sp_scheme sp; netloc := sp_netloc sp; path := url;
        params := params; query := sp_query sp;
        fragment := sp_fragment sp |}.

Definition urlunsplit (scheme netloc url query fragment : pystr) : pystr :=
  let url :=
    if nonempty netloc
       || (nonempty scheme && str_in scheme uses_netloc
           && negb (startswith (u "//") url))
    then
      let url :=
        if nonempty url && negb (startswith (u "/") url)
        then chr "/" :: url else url in
      u "//" ++ netloc ++ url
    else url in
  let url := if nonempty scheme then scheme ++ chr ":" :: url else url in
  let url := if nonempty query then url ++ chr "?" :: query else url in
  if nonempty fragment then url ++ chr "#" :: fragment else url.

Definition urlunparse (p : parse_result) : pystr :=
  let url :=
    if nonempty (params p) then path p ++ chr ";" :: params p else path p in
  urlunsplit (scheme p) (netloc p) url (query p) (fragment p).

(** [segments[1:-1] = filter(None, segments[1:-1])]: the empty segments
    between the first and the last go. *)
Definition drop_inner_empty (segments : list pystr) : list pystr :=
  match segments with
  | [] => []
  | first :: rest =>
      match rev rest with
      | [] => [first]
      | final :: inner => first :: filter nonempty (rev inner) ++ [final]
      end
  end.

(** The loop over [segments] that builds [resolved_path]. *)
Fixpoint resolve (segments resolved_path : list pystr) : list pystr :=
  match segments with
  | [] => resolved_path
  | seg :: rest =>
      if str_eqb seg (u "..") then resolve rest (removelast resolved_path)
      else if str_eqb seg (u ".") then resolve rest resolved_path
      else resolve rest (resolved_path ++ [seg])
  end.

Definition urljoin (rt : runtime) (base url : pystr) : result pystr :=
  if negb (nonempty base) then Ok url
  else if negb (nonempty url) then Ok base
  else
    b <- urlparse rt base [] ;;
    r <- urlparse rt url (scheme b) ;;
    if negb (str_eqb (scheme r) (scheme b))
       || negb (str_in (scheme r) uses_relative)
    then Ok url
    else if str_in (scheme r) uses_netloc && nonempty (netloc r)
    then Ok (urlunparse r)
    else
      let netloc' :=
        if str_in (scheme r) uses_netloc then netloc b else netloc r in
      if negb (nonempty (path r)) && negb (nonempty (params r)) then
        Ok (urlunparse
              {| scheme := scheme r; netloc := netloc'; path := path b;
                 params := params b;
                 query := if nonempty (query r) then query r else query b;
                 fragment := fragment r |})
      else
        let base_parts := split_on (chr "/") (path b) in
        let base_parts :=
          if nonempty (last base_parts []) then removelast base_parts
          else base_parts in
        let segments :=
          if startswith (u "/") (path r) then split_on (chr "/") (path r)
          else drop_inner_empty (base_parts ++ split_on (chr "/") (path r)) in
        let resolved_path := resolve segments [] in
        let final := last segments [] in
        let resolved_path :=
          if str_eqb final (u ".") || str_eqb final (u "..")
          then resolved_path ++ [[]] else resolved_path in
        let joined := join (chr "/") resolved_path in
        Ok (urlunparse
              {| scheme := scheme r; netloc := netloc';
                 path := if nonempty joined then joined else u "/";
                 params := params r; query := query r;
                 fragment := fragment r |}).

(** ** The crawler: link probe *)

(** The network, as [requests.head(url, timeout=timeout,
    allow_redirects=True)] sees it: the status code of the final response,
    or the exception raised. *)
Definition network := pystr -> Z -> result Z.

Definition check_url_availability (net : network) (url : pystr)
  (timeout : Z) : result bool :=
  match net url timeout with
  | Ok status_code => Ok (status_code =? 200)%Z
  | Raise e =>
      if catches [RequestException; ValueError] e then Ok false
      else Raise e
  end.

(** The default of the parameter [timeout]. *)
Definition default_timeout : Z := 5.

(** What [requests.head] raises: the exceptions of [requests.exceptions]
    (network errors, timeouts, redirect loops, malformed URLs) and the
    [ValueError]s of the URL parsing underneath it. *)
Definition network_errors : list exc_class :=
  [ConnectionError; ProxyError; SSLError; ChunkedEncodingError;
   ContentDecodingError; RetryError; TooManyRedirects; HTTPError;
   RequestException; StreamConsumedError; UnrewindableBodyError].

Definition timeouts : list exc_class := [Timeout; ConnectTimeout; ReadTimeout].

Definition malformed_url_errors : list exc_class :=
  [MissingSchema; InvalidSchema; InvalidURL; InvalidProxyURL; InvalidHeader;
   URLRequired; LocationValueError; LocationParseError; UnicodeError;
   ValueError].

Definition probe_failure (c : exc_class) : bool :=
  existsb (class_eqb c) (network_errors ++ timeouts ++ malformed_url_errors).

(** ** The crawler: extraction *)

(** An item of the list [extract_news] returns. *)
Record news := { title : pystr; url : pystr; date : pystr }.

(** [html.unescape] *)
Definition unescape (rt : runtime) (s : pystr) : pystr :=
  if mem_chr (chr "&") s then charref_sub rt s else s.

(** [link.get('title') or link.get_text(strip=True)], unescaped. *)
Definition link_title (rt : runtime) (link : node) : pystr :=
  unescape rt
    (match get link (u "title") with
     | Some t => if nonempty t then t else get_text_strip link
     | None => get_text_strip link
     end).

(** The search for a date, from the link up through its parents: the
    [while] loop leaves at the first element whose text holds a date, or
    past the root. *)
Fixpoint date_near (chain : list node) : option pystr :=
  match chain with
  | [] => None
  | element :: parents =>
      match find_date (get_text element) with
      | Some date_str => Some date_str
      | None => date_near parents
      end
  end.

Definition has_chinese (title : pystr) : bool :=
  match re_search chinese_pattern title with
  | Some _ => true
  | None => false
  end.

Definition link_href (link : node) : pystr :=
  match get link (u "href") with
  | Some h => h
  | None => []
  end.

(** The body of the [for] loop, as what it does to [news_list]. *)
Definition extract_link (rt : runtime) (base_url : pystr)
  (link : node) (parents : list node) (news_list : list news)
  : result (list news) :=
  let title := link_title rt link in
  if negb (nonempty title) || (length title <? 8) then Ok news_list
  else if negb (has_chinese title) then Ok news_list
  else
    url <- urljoin rt base_url (link_href link) ;;
    match date_near (link :: parents) with
    | Some date_str =>
        if nonempty url then
          match parse_date date_str with
          | Ok date_obj =>
              Ok (news_list ++
                  [{| title := title; url := url;
                      date := strftime_ymd date_obj |}])
          | Raise e =>
              if catches [ValueError] e then Ok news_list else Raise e
          end
        else Ok news_list
    | None => Ok news_list
    end.

Fixpoint extract_links (rt : runtime) (base_url : pystr)
  (links : list (node * list node)) (news_list : list news)
  : result (list news) :=
  match links with
  | [] => Ok news_list
  | (link, parents) :: rest =>
      news_list' <- extract_link rt base_url link parents news_list ;;
      extract_links rt base_url rest news_list'
  end.

Definition extract_news (rt : runtime) (html_content base_url : pystr)
  : result (list news) :=
  soup <- html_parser rt html_content ;;
  extract_links rt base_url (find_all_a_href soup) [].

(** ** The crawler: storage *)

(** An item of the list [main] hands to [insert_news_data]. *)
Record news_item := {
  item_university_name : pystr; item_title : pystr; item_date : pystr;
  item_url : pystr
}.

(** A row of [news_info], without the columns the server fills in. *)
Record row := {
  university_name : pystr; row_title : pystr; row_date : pystr;
  link : pystr; category : pystr
}.

Definition table := list row.

(** The MySQL server behind [pymysql]: whether connecting or committing
    fails, the collation key under which the unique index on [title]
    compares two titles, and the failure of an [INSERT] for any other
    reason than a duplicate title (data too long, connection lost). *)
Record mysql := {
  connect_error : option exn;
  collation : pystr -> pystr;
  statement_error : table -> row -> option exn;
  commit_error : option exn
}.

Definition duplicate_entry : exn := Exn IntegrityError 1062.

Definition title_taken (db : mysql) (t : table) (r : row) : bool :=
  existsb (fun r' => str_eqb (collation db (row_title r'))
                             (collation db (row_title r))) t.

(** [cursor.execute(insert_query, ...)] within the open transaction. *)
Definition execute_insert (db : mysql) (t : table) (r : row)
  : result table :=
  match statement_error db t r with
  | Some e => Raise e
  | None => if title_taken db t r then Raise duplicate_entry else Ok (t ++ [r])
  end.

Definition row_of (rt : runtime) (item : news_item) : row :=
  {| university_name := item_university_name item;
     row_title := item_title item;
     row_date := item_date item;
     link := item_url item;
     category := categorize_news rt (item_title item) |}.

(** The [for] loop of [insert_news_data], on [inserted_count] and the
    table as the transaction sees it. *)
Fixpoint insert_loop (rt : runtime) (db : mysql) (net : network)
  (data : list news_item) (inserted_count : Z) (t : table)
  : result (Z * table) :=
  match data with
  | [] => Ok (inserted_count, t)
  | item :: rest =>
      reachable <- check_url_availability net (item_url item)
                     default_timeout ;;
      if negb reachable then insert_loop rt db net rest inserted_count t
      else
        match execute_insert db t (row_of rt item) with
        | Ok t' => insert_loop rt db net rest (inserted_count + 1)%Z t'
        | Raise e =>
            if catches [IntegrityError] e then
              if (exn_code e =? 1062)%Z
              then insert_loop rt db net rest inserted_count t
              else Raise e
            else Raise e
        end
  end.

(** [insert_news_data] returns the count; the table is what the server
    holds afterwards.  A transaction that is not committed is rolled back
    when the connection closes. *)
Definition insert_news_data (rt : runtime) (db : mysql) (net : network)
  (stored : table) (data : list news_item) : result (Z * table) :=
  let attempt :=
    match connect_error db with
    | Some e => Raise e
    | None =>
        done <- insert_loop rt db net data 0%Z stored ;;
        match commit_error db with
        | Some e => Raise e
        | None => Ok done
        end
    end in
  match attempt with
  | Ok done => Ok done
  | Raise e => if catches [Exception] e then Ok (0%Z, stored) else Raise e
  end.

(** [main] turns what [extract_news] returned into items. *)
Definition formatted (uni_name : pystr) (n : news) : news_item :=
  {| item_university_name := uni_name; item_title := title n;
     item_date := date n; item_url := url n |}.

(** ** The crawler: cleaning *)

(** The failures of the statements of [clean_invalid_links]: of the
    [SELECT], and of the [DELETE] of the row with a given [id] (connection
    lost, lock wait timeout). *)
Record cleaning := {
  select_error : option exn;
  delete_error : nat -> option exn
}.

(** The rows with their [id].  [AUTO_INCREMENT] gives every row a key of
    its own; here the rows are numbered in the order of the table. *)
Definition with_ids (t : table) : list (nat * row) :=
  combine (seq 1 (length t)) t.

(** [cursor.execute("SELECT id, link FROM news_info")] and
    [cursor.fetchall()] *)
Definition select_id_link (t : list (nat * row)) : list (nat * pystr) :=
  map (fun r => (fst r, link (snd r))) t.

(** [cursor.execute("DELETE FROM news_info WHERE id = %s", (record_id,))]
    within the open transaction. *)
Definition execute_delete (faults : cleaning) (t : list (nat * row))
  (record_id : nat) : result (list (nat * row)) :=
  match delete_error faults record_id with
  | Some e => Raise e
  | None => Ok (filter (fun r => negb (fst r =? record_id)) t)
  end.

(** The [for] loop of [clean_invalid_links], on [deleted_count] and the
    table as the transaction sees it. *)
Fixpoint clean_loop (faults : cleaning) (net : network)
  (records : list (nat * pystr)) (deleted_count : Z) (t : list (nat * row))
  : result (Z * list (nat * row)) :=
  match records with
  | [] => Ok (deleted_count, t)
  | (record_id, link) :: rest =>
      reachable <- check_url_availability net link default_timeout ;;
      if negb reachable then
        t' <- execute_delete faults t record_id ;;
        clean_loop faults net rest (deleted_count + 1)%Z t'
      else clean_loop faults net rest deleted_count t
  end.

(** [clean_invalid_links] returns the count; the table is what the server
    holds afterwards.  A transaction that is not committed is rolled back
    when the connection closes. *)
Definition clean_invalid_links (db : mysql) (faults : cleaning)
  (net : network) (stored : table) : result (Z * table) :=
  let attempt :=
    match connect_error db with
    | Some e => Raise e
    | None =>
        match select_error faults with
        | Some e => Raise e
        | None =>
            let t := with_ids stored in
            let records := select_id_link t in
            done <- clean_loop faults net records 0%Z t ;;
            match commit_error db with
            | Some e => Raise e
            | None => Ok (fst done, map snd (snd done))
            end
        end
    end in
  match attempt with
  | Ok done => Ok done
  | Raise e => if catches [Exception] e then Ok (0%Z, stored) else Raise e
  end.

(** ** The crawler: the run over the sites *)

(** What [main] reads of a [requests.Response]: the status code and
    [resp.text], the body decoded as UTF-8 ([resp.encoding = 'utf-8']). *)
Record response := { status_code : Z; text : pystr }.

(** The web, as [requests.get(url, timeout=timeout)] sees it. *)
Definition web := pystr -> Z -> result response.

(** [resp.ok]: [raise_for_status] raises on the codes 400 to 599. *)
Definition ok (resp : response) : bool :=
  negb ((400 <=? status_code resp) && (status_code resp <? 600))%Z.

(** [s.rsplit(c, 1)[0]]: the text before the last [c], all of [s] when it
    holds none. *)
Definition before_last (c : N) (s : pystr) : pystr :=
  match split_first c (rev s) with
  | Some (_, b) => rev b
  | None => s
  end.

Definition sites : list (pystr * pystr) :=
  [ (u "上海大学", u "https://news.shu.edu.cn/index/zyxw.htm");
    (u "复旦大学", u "https://www.fudan.edu.cn/");
    (u "上海交通大学", u "https://news.sjtu.edu.cn/index.html");
    (u "华东师范大学", u "https://www.ecnu.edu.cn/xwlm/xwrd.htm");
    (u "同济大学", u "https://news.tongji.edu.cn/tjyw1.htm");
    (u "上海师范大学", u "https://xw.shnu.edu.cn/main.htm");
    (u "上海对外经贸大学", u "https://news.suibe.edu.cn/main.htm");
    (u "上海交通大学", u "https://news.sjtu.edu.cn/jdyw/index.html");
    (u "上海交通大学医学院附属新华医院",
     u "https://www.xinhuamed.com.cn/news/index.html");
    (u "上海应用技术大学", u "https://www.sit.edu.cn/xww/") ].

(** The body of the [for] loop of [main], as what it does to the table. *)
Definition crawl_site (rt : runtime) (db : mysql) (net : network)
  (www : web) (stored : table) (site : pystr * pystr) : result table :=
  let (uni_name, url) := site in
  let attempt :=
    resp <- www url 10%Z ;;
    if negb (ok resp) then Ok stored
    else
      news_items <- extract_news rt (text resp) (before_last (chr "/") url) ;;
      let formatted_data := map (formatted uni_name) news_items in
      inserted <- insert_news_data rt db net stored formatted_data ;;
      Ok (snd inserted) in
  match attempt with
  | Ok t => Ok t
  | Raise e => if catches [Exception] e then Ok stored else Raise e
  end.

Fixpoint crawl_sites (rt : runtime) (db : mysql) (net : network)
  (www : web) (sites : list (pystr * pystr)) (stored : table)
  : result table :=
  match sites with
  | [] => Ok stored
  | site :: rest =>
      stored' <- crawl_site rt db net www stored site ;;
      crawl_sites rt db net www rest stored'
  end.

(** [main], as what it does to the table; [table_ready] is what
    [create_news_table()] returned. *)
Definition main (rt : runtime) (db : mysql) (faults : cleaning)
  (net : network) (www : web) (table_ready : bool) (stored : table)
  : result table :=
  if negb table_ready then Ok stored
  else
    stored' <- crawl_sites rt db net www sites stored ;;
    cleaned <- clean_invalid_links db faults net stored' ;;
    Ok (snd cleaned).

(** ** Sample pages

    The pages of the scenarios below, each as the HTML text and as the
    tree [html.parser] builds from it, and a runtime whose parser knows
    these pages. *)

Definition document (contents : list node) : node :=
  Tag (u "[document]") [] contents.

Definition anchor (href text : string) : node :=
  Tag (u "a") [(u "href", u href)] [Text (u text)].

Definition shu_base : pystr := u "https://news.shu.edu.cn/index/zyxw.htm".

Definition shu_title : pystr := u "上海大学召开2024年招生工作会议".

Definition shu_html : pystr :=
  u "<span>2024-05-10<a href='/news/1.htm'>上海大学召开2024年招生工作会议</a></span>".

Definition shu_link : node :=
  anchor "/news/1.htm" "上海大学召开2024年招生工作会议".

Definition shu_page : node :=
  document [Tag (u "span") [] [Text (u "2024-05-10"); shu_link]].

Definition twice_html : pystr :=
  u "<ul><li><a href='/a.htm'>复旦大学举办学术讲座通知</a> 2024-03-05</li><li><a href='/b.htm'>复旦大学举办学术讲座通知</a> 2024-03-06</li></ul>".

Definition twice_page : node :=
  document
    [Tag (u "ul") []
       [Tag (u "li") []
          [anchor "/a.htm" "复旦大学举办学术讲座通知"; Text (u " 2024-03-05")];
        Tag (u "li") []
          [anchor "/b.htm" "复旦大学举办学术讲座通知"; Text (u " 2024-03-06")]]].

Definition bad_date_html : pystr :=
  u "<p><a href='/x.htm'>上海大学发布最新校园公告</a> 2024-13-45</p><p><a href='/news/1.htm'>上海大学召开2024年招生工作会议</a> 2024-05-10</p>".

Definition bad_date_page : node :=
  document
    [Tag (u "p") []
       [anchor "/x.htm" "上海大学发布最新校园公告"; Text (u " 2024-13-45")];
     Tag (u "p") [] [shu_link; Text (u " 2024-05-10")]].

Definition bad_href_html : pystr :=
  u "<p><a href='/news/1.htm'>上海大学召开2024年招生工作会议</a> 2024-05-10</p><p><a href='//['>上海大学发布最新校园公告</a> 2024-05-11</p>".

Definition bad_href_page : node :=
  document
    [Tag (u "p") [] [shu_link; Text (u " 2024-05-10")];
     Tag (u "p") []
       [anchor "//[" "上海大学发布最新校园公告"; Text (u " 2024-05-11")]].

Definition sample_pages : list (pystr * node) :=
  [(shu_html, shu_page); (twice_html, twice_page);
   (bad_date_html, bad_date_page); (bad_href_html, bad_href_page)].

Fixpoint lookup_page (pages : list (pystr * node)) (html : pystr) : node :=
  match pages with
  | [] => document [Text html]
  | (h, page) :: rest => if str_eqb h html then page else lookup_page rest html
  end.

(** A runtime for the scenarios: no host is refused, the parser answers on
    the sample pages, and the Unicode tables are not consulted. *)
Definition sample_runtime : runtime :=
  {| unicode_lower := fun s => s;
     charref_sub := fun s => s;
     netloc_refused := fun _ => false;
     html_parser := fun html => Ok (lookup_page sample_pages html) |}.

(** The record of the scenario page. *)
Definition shu_news : news :=
  {| title := shu_title; url := u "https://news.shu.edu.cn/news/1.htm";
     date := u "2024-05-10" |}.

(** A server that never fails and compares titles as they are, a network
    on which every probe answers 200, and one on which every probe times
    out. *)
Definition quiet_mysql : mysql :=
  {| connect_error := None; collation := fun t => t;
     statement_error := fun _ _ => None; commit_error := None |}.

Definition open_network : network := fun _ _ => Ok 200%Z.

Definition dead_network : network := fun _ _ => Raise (Exn ConnectTimeout 0).

(** The two records of the page with the same title twice. *)
Definition twice_first : news :=
  {| title := u "复旦大学举办学术讲座通知";
     url := u "https://news.shu.edu.cn/a.htm"; date := u "2024-03-05" |}.

Definition twice_second : news :=
  {| title := u "复旦大学举办学术讲座通知";
     url := u "https://news.shu.edu.cn/b.htm"; date := u "2024-03-06" |}.

(** A network on which one host is down, and a server that refuses a link
    of more than 255 characters (error 1406, data too long). *)
Definition patchy_network : network :=
  fun url _ =>
    if startswith (u "https://gone.example/") url
    then Raise (Exn ConnectionError 0)
    else Ok 200%Z.

(** See [patchy_network]. *)
Definition strict_mysql : mysql :=
  {| connect_error := None; collation := fun t => t;
     statement_error :=
       fun _ r => if 255 <? length (link r) then Some (Exn DataError 1406)
                  else None;
     commit_error := None |}.

(** An item of a batch for 上海大学. *)
Definition shu_item (title url : string) : news_item :=
  {| item_university_name := u "上海大学"; item_title := u title;
     item_date := u "2024-05-10"; item_url := u url |}.

(** A URL of 264 characters. *)
Definition long_url : pystr := u "https://news.shu.edu.cn/" ++ repeat (chr "a") 240.

(** ** Sample runs

    A page with a link and no date, a runtime whose parser knows it, a web
    that serves the sample pages for four of the sites, and a server
    without failures of the statements of the cleaning. *)




(** The span that holds the link of the scenario page. *)
Definition shu_span : node :=
  Tag (u "span") [] [Text (u "2024-05-10"); shu_link].

Definition fudan_site : pystr * pystr :=
  (u "复旦大学", u "https://www.fudan.edu.cn/").

(** 上海大学 serves the scenario page, 复旦大学 the page with the
    malformed link, 上海交通大学 answers 404, 同济大学 serves the page with
    the same title twice, and the other sites time out. *)
Definition sample_web : web :=
  fun url _ =>
    if str_eqb url (u "https://news.shu.edu.cn/index/zyxw.htm")
    then Ok {| status_code := 200; text := shu_html |}
    else if str_eqb url (snd fudan_site)
    then Ok {| status_code := 200; text := bad_href_html |}
    else if str_eqb url (u "https://news.sjtu.edu.cn/index.html")
    then Ok {| status_code := 404; text := [] |}
    else if str_eqb url (u "https://news.tongji.edu.cn/tjyw1.htm")
    then Ok {| status_code := 200; text := twice_html |}
    else Raise (Exn ConnectTimeout 0).

Definition no_faults : cleaning :=
  {| select_error := None; delete_error := fun _ => None |}.

(** What the run over the sample web stores. *)
Definition sample_table : table :=
  [ row_of sample_runtime (formatted (u "上海大学") shu_news);
    row_of sample_runtime
      (formatted (u "同济大学")
         {| title := u "复旦大学举办学术讲座通知";
            url := u "https://news.tongji.edu.cn/a.htm";
            date := u "2024-03-05" |}) ].

(** An item with the link of 264 characters. *)
Definition long_item : news_item :=
  {| item_university_name := u "上海大学";
     item_title := u "上海大学发布最新校园公告";
     item_date := u "2024-05-10"; item_url := long_url |}.

(** Two links in one element, each followed by its date. *)
Definition lecture_link : node := anchor "/a.htm" "复旦大学举办学术讲座通知".

Definition notice_link : node := anchor "/b.htm" "上海大学发布最新校园公告".

Definition shared_div : node :=
  Tag (u "div") []
    [lecture_link; Text (u " 2024-03-05 "); notice_link;
     Text (u " 2024-03-06")].

(** The base that [main] cuts from the address of the first site, and
    what [urlparse] makes of it. *)
Definition shu_cut_base : pystr := u "https://news.shu.edu.cn/index".

Definition shu_cut_parts : parse_result :=
  {| scheme := u "https"; netloc := u "news.shu.edu.cn"; path := u "/index";
     params := []; query := []; fragment := [] |}.

(** The records of the two links of [shared_div]: both carry the first
    date of the element. *)
Definition lecture_news : news :=
  {| title := u "复旦大学举办学术讲座通知";
     url := u "https://news.shu.edu.cn/a.htm"; date := u "2024-03-05" |}.

Definition notice_news : news :=
  {| title := u "上海大学发布最新校园公告";
     url := u "https://news.shu.edu.cn/b.htm"; date := u "2024-03-05" |}.

(** ** Notions the properties are stated with *)

(** The texts that are [n] words of [L] in a row. *)
Fixpoint power (L : pystr -> Prop) (n : nat) (w : pystr) : Prop :=
  match n with
  | O => w = []
  | S k => exists a b, w = a ++ b /\ L a /\ power L k b
  end.

(** The language of a pattern: the texts it matches as a whole, stated
    without reference to the matcher. *)
Fixpoint lang (r : regex) (w : pystr) : Prop :=
  match r with
  | Lit c => w = [c]
  | Digit => exists c, w = [c] /\ is_digit c = true
  | Range lo hi => exists c, w = [c] /\ (lo <= c <= hi)%N
  | OneOf cs => exists c, w = [c] /\ In c cs
  | Cat r1 r2 => exists a b, w = a ++ b /\ lang r1 a /\ lang r2 b
  | Alt r1 r2 => lang r1 w \/ lang r2 w
  | Rep lo extra r1 =>
      exists n, lo <= n <= lo + extra /\ power (lang r1) n w
  end.

(** [m] finds exactly the ways to split off a word of [L]. *)
Definition finds (m : pystr -> list pystr) (L : pystr -> Prop) : Prop :=
  forall s rest, In rest (m s) <-> exists w, s = w ++ rest /\ L w.

(** The date one template yields for a text: what [strptime] returns, with
    the day set to 1 under the template [%Y-%m]. *)
Definition template_date (fmt date_str : pystr) : result datetime :=
  date_obj <- strptime date_str fmt ;;
  if str_eqb fmt (u "%Y-%m") then replace_day date_obj 1 else Ok date_obj.

(** The regular expression of one piece of a compiled template. *)
Definition piece_re (p : piece) : regex :=
  match p with
  | PLit c => Lit c
  | PDir d => directive_re d
  end.

(** The regular expression of a whole template, its pieces in a row. *)
Definition format_regex (ps : list piece) : regex :=
  fold_right Cat Eps (map piece_re ps).

(** A character of the class of [chinese_pattern]. *)
Definition is_chinese (c : N) : Prop := (0x4E00 <= c <= 0x9FA5)%N.

(** A title that passes the two filters of the loop. *)
Definition acceptable_title (t : pystr) : Prop :=
  8 <= length t /\ exists c, In c t /\ is_chinese c.

(** [kw] occurs in [t], as a run of consecutive characters. *)
Definition occurs_in (kw t : pystr) : Prop := exists a b, t = a ++ kw ++ b.

(** One of the keywords occurs in [t]. *)
Definition names_one_of (keywords : list pystr) (t : pystr) : Prop :=
  exists kw, In kw keywords /\ occurs_in kw t.

(** [l1] is [l2] with some of its items left out. *)
Inductive subseq (A : Type) : list A -> list A -> Prop :=
| subseq_nil : subseq [] []
| subseq_skip x l1 l2 : subseq l1 l2 -> subseq l1 (x :: l2)
| subseq_keep x l1 l2 : subseq l1 l2 -> subseq (x :: l1) (x :: l2).

(** [date_str] is the date found in the nearest element of the chain
    (the link, its parent, and so on) whose text holds one. *)
Definition nearest_date (chain : list node) (date_str : pystr) : Prop :=
  exists k element,
    nth_error chain k = Some element /\
    find_date (get_text element) = Some date_str /\
    forall j other, j < k -> nth_error chain j = Some other ->
      find_date (get_text other) = None.

(** [n] is the record of a link (given with its parents): the title of
    the link, which passes the filters, the [href] joined to the base, not
    empty, and the nearest date, parsed and written as year-month-day. *)
Definition record_of (rt : runtime) (base_url : pystr)
  (lp : node * list node) (n : news) : Prop :=
  title n = link_title rt (fst lp) /\
  acceptable_title (title n) /\
  urljoin rt base_url (link_href (fst lp)) = Ok (url n) /\
  url n <> [] /\
  exists date_str date_obj,
    nearest_date (fst lp :: snd lp) date_str /\
    parse_date date_str = Ok date_obj /\
    date n = strftime_ymd date_obj.

(** A URL of ASCII characters without a square bracket. *)
Definition plain (s : pystr) : bool :=
  forallb (fun c => is_ascii c && negb (c =? chr "[")%N
                    && negb (c =? chr "]")%N) s.

(** No two rows of the table have the same title under the collation of
    the server. *)
Fixpoint unique_titles (db : mysql) (t : table) : bool :=
  match t with
  | [] => true
  | r :: t' => negb (title_taken db t' r) && unique_titles db t'
  end.

(** The error [e] is the duplicate-key error that the loop of
    [insert_news_data] passes over. *)
Definition passed_over (e : exn) : bool :=
  catches [IntegrityError] e && (exn_code e =? 1062)%Z.

(** The probe of the link of a row answers 200. *)
Definition reachable (net : network) (r : row) : bool :=
  match check_url_availability net (link r) default_timeout with
  | Ok true => true
  | _ => false
  end.

(** The site gives [main] nothing to store: the request raises, the
    answer has an error status, or [extract_news] raises on the page. *)
Definition site_fails (rt : runtime) (www : web) (site : pystr * pystr)
  : Prop :=
  (exists e, www (snd site) 10%Z = Raise e) \/
  (exists resp, www (snd site) 10%Z = Ok resp /\ ok resp = false) \/
  (exists resp e,
     www (snd site) 10%Z = Ok resp /\ ok resp = true /\
     extract_news rt (text resp) (before_last (chr "/") (snd site))
     = Raise e).

(** A row as a run over [sites] stores it: under the name of one of the
    sites, with a title that passes the filters, the category of that
    title, a link that is not empty and was reachable, and a date of the
    calendar written as year-month-day. *)
Definition crawled (rt : runtime) (net : network)
  (sites : list (pystr * pystr)) (r : row) : Prop :=
  (exists site, In site sites /\ university_name r = fst site) /\
  acceptable_title (row_title r) /\
  category r = categorize_news rt (row_title r) /\
  link r <> [] /\
  check_url_availability net (link r) default_timeout = Ok true /\
  exists d, valid_date (year d) (month d) (day d) = true /\
            row_date r = strftime_ymd d.

(** A character that ends the path of a URL or is dropped from it: tab,
    line feed, carriage return, [#], [?], [;]. *)
Definition special_chr (c : N) : bool :=
  (unsafe_byte c || (c =? chr "#") || (c =? chr "?") || (c =? chr ";"))%N.

Definition dot_segment (seg : pystr) : bool :=
  str_eqb seg (u ".") || str_eqb seg (u "..").

(** An [href] that is a path from the root of the host: it begins with
    one [/] and has no special character and no segment [.] or [..]. *)
Definition rooted (href : pystr) : bool :=
  match href with
  | a :: rest =>
      (a =? chr "/")%N && negb (startswith (u "/") rest)
      && forallb (fun c => negb (special_chr c)) href
      && forallb (fun seg => negb (dot_segment seg))
           (split_on (chr "/") href)
  | [] => false
  end.

(** An [href] that is the name of a file beside the page: no [/], no [:],
    no special character, no blank in front, not [.] or [..]. *)
Definition simple_name (name : pystr) : bool :=
  match name with
  | a :: _ =>
      negb (c0_or_space a)
      && forallb (fun c => negb (special_chr c || (c =? chr "/")
                                 || (c =? chr ":"))%N) name
      && negb (dot_segment name)
  | [] => false
  end.

(** The scheme of a web page. *)
Definition web_scheme (s : pystr) : Prop := s = u "https" \/ s = u "http".

(** The segments of the path of the base that [urljoin] keeps for a
    relative reference: all but the last, unless the path ends with
    [/]. *)
Definition kept_segments (p : pystr) : list pystr :=
  let parts := split_on (chr "/") p in
  if nonempty (last parts []) then removelast parts else parts.

(** The page and the base that [main] cuts from its address have the
    same scheme and host, the scheme is [https], and the base has no
    directory left for a relative reference. *)
Definition base_at_root (rt : runtime) (site : pystr * pystr) : bool :=
  match urlparse rt (snd site) [],
        urlparse rt (before_last (chr "/") (snd site)) [] with
  | Ok p, Ok b =>
      str_eqb (scheme p) (scheme b) && str_eqb (netloc p) (netloc b)
      && str_eqb (scheme b) (u "https") && nonempty (netloc b)
      && match kept_segments (path b) with
         | [[]] => true
         | _ => false
         end
  | _, _ => false
  end.

(** * Properties *)

Lemma str_eqb_eq (a b : pystr) : str_eqb a b = true <-> a = b.
Proof.
  unfold str_eqb. destruct (list_eq_dec N.eq_dec a b); split; congruence.
Qed.

(** ** What a pattern matches *)

Lemma accepts_chr_finds (p : N -> bool) :
  finds (accepts_chr p) (fun w => exists c, w = [c] /\ p c = true).
Proof.
  intros s rest. unfold accepts_chr. split.
  - destruct s as [|c s']; [intros []|].
    destruct (p c) eqn:Hp; [|intros []].
    intros [<-|[]]. exists [c]. split; [reflexivity|]. now exists c.
  - intros (w & -> & c & -> & Hp). simpl. rewrite Hp. now left.
Qed.

Lemma exactly_finds m L n : finds m L -> finds (exactly m n) (power L n).
Proof.
  intros Hm. induction n as [|n IH]; intros s rest; simpl.
  - split.
    + intros [<-|[]]. now exists [].
    + intros (w & -> & ->). now left.
  - rewrite in_flat_map. split.
    + intros (mid & Hmid & Hrest).
      apply Hm in Hmid as (a & -> & Ha).
      apply IH in Hrest as (b & -> & Hb).
      exists (a ++ b). split; [now rewrite app_assoc|]. now exists a, b.
    + intros (w & -> & a & b & -> & Ha & Hb).
      exists (b ++ rest). split.
      * apply Hm. exists a. split; [now rewrite app_assoc|assumption].
      * apply IH. now exists b.
Qed.

Lemma upto_finds m L n :
  finds m L -> finds (upto m n) (fun w => exists k, k <= n /\ power L k w).
Proof.
  intros Hm. induction n as [|n IH]; intros s rest; simpl.
  - split.
    + intros [<-|[]]. exists []. split; [reflexivity|]. exists 0. now split.
    + intros (w & -> & k & Hk & Hw).
      assert (k = 0) as -> by lia. simpl in Hw. subst w. now left.
  - rewrite in_app_iff, in_flat_map. split.
    + intros [(mid & Hmid & Hrest)|[<-|[]]].
      * apply Hm in Hmid as (a & -> & Ha).
        apply IH in Hrest as (b & -> & k & Hk & Hb).
        exists (a ++ b). split; [now rewrite app_assoc|].
        exists (S k). split; [lia|]. now exists a, b.
      * exists []. split; [reflexivity|]. exists 0. split; [lia|reflexivity].
    + intros (w & -> & k & Hk & Hw). destruct k as [|k].
      * simpl in Hw. subst w. right. now left.
      * destruct Hw as (a & b & -> & Ha & Hb). left.
        exists (b ++ rest). split.
        -- apply Hm. exists a. split; [now rewrite app_assoc|assumption].
        -- apply IH. exists b. split; [reflexivity|]. exists k. split; [lia|assumption].
Qed.

Lemma power_add L n k a b :
  power L n a -> power L k b -> power L (n + k) (a ++ b).
Proof.
  revert a. induction n as [|n IH]; intros a Ha Hb; simpl in *.
  - now subst a.
  - destruct Ha as (x & y & -> & Hx & Hy).
    exists x, (y ++ b). split; [now rewrite app_assoc|]. split; [assumption|].
    now apply IH.
Qed.

Lemma power_split L n k w :
  power L (n + k) w -> exists a b, w = a ++ b /\ power L n a /\ power L k b.
Proof.
  revert w. induction n as [|n IH]; intros w Hw; simpl in *.
  - now exists [], w.
  - destruct Hw as (x & y & -> & Hx & Hy).
    apply IH in Hy as (a & b & -> & Ha & Hb).
    exists (x ++ a), b. split; [now rewrite app_assoc|]. split; [|assumption].
    now exists x, a.
Qed.

(** The matcher is sound and complete for the language of the pattern. *)
Lemma rmatch_finds (r : regex) : finds (rmatch r) (lang r).
Proof.
  induction r as [c| |lo hi|cs|r1 IH1 r2 IH2|r1 IH1 r2 IH2|lo extra r1 IH];
    intros s rest; simpl.
  - rewrite (accepts_chr_finds (N.eqb c) s rest). split.
    + intros (w & -> & x & -> & Hx). apply N.eqb_eq in Hx. subst x. now exists [c].
    + intros (w & -> & ->). exists [c]. split; [reflexivity|].
      exists c. split; [reflexivity|apply N.eqb_refl].
  - apply accepts_chr_finds.
  - rewrite (accepts_chr_finds _ s rest). split.
    + intros (w & -> & x & -> & Hx). exists [x]. split; [reflexivity|].
      exists x. split; [reflexivity|].
      apply andb_true_iff in Hx as [H1 H2].
      apply N.leb_le in H1, H2. now split.
    + intros (w & -> & x & -> & H1 & H2). exists [x]. split; [reflexivity|].
      exists x. split; [reflexivity|].
      apply andb_true_iff. split; now apply N.leb_le.
  - rewrite (accepts_chr_finds _ s rest). split.
    + intros (w & -> & x & -> & Hx). exists [x]. split; [reflexivity|].
      exists x. split; [reflexivity|].
      unfold mem_chr in Hx. apply existsb_exists in Hx as (y & Hy & Hxy).
      apply N.eqb_eq in Hxy. now subst y.
    + intros (w & -> & x & -> & Hx). exists [x]. split; [reflexivity|].
      exists x. split; [reflexivity|].
      unfold mem_chr. apply existsb_exists. exists x. split; [assumption|apply N.eqb_refl].
  - rewrite in_flat_map. split.
    + intros (mid & Hmid & Hrest).
      apply IH1 in Hmid as (a & -> & Ha). apply IH2 in Hrest as (b & -> & Hb).
      exists (a ++ b). split; [now rewrite app_assoc|]. now exists a, b.
    + intros (w & -> & a & b & -> & Ha & Hb). exists (b ++ rest). split.
      * apply IH1. exists a. split; [now rewrite app_assoc|assumption].
      * apply IH2. now exists b.
  - rewrite in_app_iff, (IH1 s rest), (IH2 s rest). split.
    + intros [(w & -> & Hw)|(w & -> & Hw)]; exists w; auto.
    + intros (w & -> & [Hw|Hw]); [left|right]; now exists w.
  - rewrite in_flat_map. split.
    + intros (mid & Hmid & Hrest).
      apply (exactly_finds lo IH) in Hmid as (a & -> & Ha).
      apply (upto_finds extra IH) in Hrest as (b & -> & k & Hk & Hb).
      exists (a ++ b). split; [now rewrite app_assoc|].
      exists (lo + k). split; [lia|]. now apply power_add.
    + intros (w & -> & n & Hn & Hw).
      replace n with (lo + (n - lo)) in Hw by lia.
      apply power_split in Hw as (a & b & -> & Ha & Hb).
      exists (b ++ rest). split.
      * apply (exactly_finds lo IH). exists a. split; [now rewrite app_assoc|assumption].
      * apply (upto_finds extra IH). exists b. split; [reflexivity|].
        exists (n - lo). split; [lia|assumption].
Qed.

Lemma consumed_app (w rest : pystr) : consumed (w ++ rest) rest = w.
Proof.
  unfold consumed. rewrite length_app.
  replace (length w + length rest - length rest) with (length w + 0) by lia.
  rewrite firstn_app_2. simpl. apply app_nil_r.
Qed.

Lemma rmatch_head r s rest others :
  rmatch r s = rest :: others ->
  exists m, s = m ++ rest /\ lang r m /\ re_match r s = Some m.
Proof.
  intros H. assert (In rest (rmatch r s)) as Hin by (rewrite H; now left).
  apply rmatch_finds in Hin as (m & -> & Hm). exists m. repeat split; try assumption.
  unfold re_match. rewrite H. now rewrite consumed_app.
Qed.

Lemma rmatch_nil r s w rest :
  rmatch r s = [] -> lang r w -> s <> w ++ rest.
Proof.
  intros H Hw ->.
  assert (In rest (rmatch r (w ++ rest))) as Hin
      by (apply rmatch_finds; now exists w).
  now rewrite H in Hin.
Qed.

Lemma found_here r before s rest others pre m post :
  rmatch r s = rest :: others ->
  (rev before, consumed s rest, rest) = (pre, m, post) ->
  exists skipped,
    pre = rev before ++ skipped /\ s = skipped ++ m ++ post /\
    re_match r (m ++ post) = Some m /\ lang r m /\
    (forall a b, skipped = a ++ b -> b <> [] -> rmatch r (b ++ m ++ post) = []).
Proof.
  intros Hr [= <- <- <-].
  destruct (rmatch_head _ _ Hr) as (m & Hs & Hm & Hre). subst s.
  rewrite consumed_app. exists []. rewrite app_nil_r.
  repeat split; try assumption.
  intros a b Hab Hb. now destruct a, b.
Qed.

(** [re_search_from] reports the match at the first position that has
    one; the positions it skipped have none. *)
Lemma re_search_from_some r before s pre m post :
  re_search_from r before s = Some (pre, m, post) ->
  exists skipped,
    pre = rev before ++ skipped /\ s = skipped ++ m ++ post /\
    re_match r (m ++ post) = Some m /\ lang r m /\
    (forall a b, skipped = a ++ b -> b <> [] -> rmatch r (b ++ m ++ post) = []).
Proof.
  revert before. induction s as [|c s IH]; intros before; simpl;
    destruct (rmatch r _) as [|rest others] eqn:Hr at 1.
  - discriminate.
  - intros H. eapply found_here; [exact Hr|congruence].
  - intros H. apply IH in H as (skipped & -> & -> & Hre & Hm & Hskip).
    exists (c :: skipped). simpl. rewrite <- app_assoc. simpl.
    repeat split; try assumption.
    intros a b Hab Hb. destruct a as [|x a]; simpl in Hab.
    + subst b. exact Hr.
    + injection Hab as _ ->. now apply (Hskip a b).
  - intros H. eapply found_here; [exact Hr|congruence].
Qed.

Lemma re_search_from_none r before s :
  re_search_from r before s = None ->
  forall a b, s = a ++ b -> rmatch r b = [].
Proof.
  revert before. induction s as [|c s IH]; intros before; simpl;
    destruct (rmatch r _) as [|rest others] eqn:Hr at 1; try discriminate.
  - intros _ a b Hab. destruct a, b; try discriminate. exact Hr.
  - intros H a b Hab. destruct a as [|x a]; simpl in Hab.
    + now subst b.
    + injection Hab as _ ->. now apply (IH _ H a b).
Qed.

(** Two ways to cut the same text: the shorter first part is a prefix of
    the longer one. *)
Lemma cut_twice (A : Type) (a c b d : list A) :
  a ++ b = c ++ d -> length c < length a ->
  exists e, a = c ++ e /\ e <> [] /\ d = e ++ b.
Proof.
  revert c. induction a as [|x a IH]; intros c H Hlen; simpl in *.
  - lia.
  - destruct c as [|y c]; simpl in *.
    + exists (x :: a). subst d. repeat split. discriminate.
    + injection H as -> H. apply IH in H as (e & -> & He & ->); [|lia].
      now exists e.
Qed.

(** [pattern.search]: the match reported is a word of the pattern, it is
    the one the matcher prefers at its position, and no word of the
    pattern starts further left. *)
Lemma re_search_some r s pre m post :
  re_search r s = Some (pre, m, post) ->
  s = pre ++ m ++ post /\ lang r m /\ re_match r (m ++ post) = Some m /\
  (forall pre' w post', lang r w -> s = pre' ++ w ++ post' ->
                        length pre <= length pre').
Proof.
  intros H. apply re_search_from_some in H as (skipped & -> & -> & Hre & Hm & Hskip).
  simpl. repeat split; try assumption.
  intros pre' w post' Hw Hs.
  destruct (Nat.le_gt_cases (length skipped) (length pre')) as [|Hlt]; [assumption|].
  destruct (cut_twice _ _ _ _ Hs Hlt) as (e & He & Hne & Hrest).
  specialize (Hskip _ _ He Hne).
  exfalso. eapply rmatch_nil; [exact Hskip|exact Hw|]. now rewrite Hrest.
Qed.

Lemma re_search_none r s :
  re_search r s = None ->
  forall pre w post, lang r w -> s <> pre ++ w ++ post.
Proof.
  intros H pre w post Hw Hs.
  eapply rmatch_nil; [|exact Hw|reflexivity].
  eapply re_search_from_none; [exact H|exact Hs].
Qed.

(** An alternation tries its branches in the order they are written. *)
Lemma rmatch_alternation r rs s :
  rmatch (alternation r rs) s = flat_map (fun x => rmatch x s) (r :: rs).
Proof.
  revert r. induction rs as [|r' rs IH]; intros r; simpl.
  - now rewrite app_nil_r.
  - now rewrite IH.
Qed.

Lemma lang_alternation r rs w :
  lang (alternation r rs) w <-> exists x, In x (r :: rs) /\ lang x w.
Proof.
  revert r. induction rs as [|r' rs IH]; intros r; simpl.
  - split; [intros H; exists r; auto|intros (x & [<-|[]] & H); assumption].
  - rewrite IH. split.
    + intros [H|(x & Hx & H)]; [exists r|exists x]; simpl in *; auto.
    + intros (x & [<-|Hx] & H); [now left|right; now exists x].
Qed.

(** The head of a concatenation comes from the first list that is not
    empty. *)
Lemma flat_map_head (A B : Type) (f : A -> list B) (l : list A) x tl :
  flat_map f l = x :: tl ->
  exists k y tl', nth_error l k = Some y /\ f y = x :: tl' /\
    forall j z, j < k -> nth_error l j = Some z -> f z = [].
Proof.
  induction l as [|a l IH]; simpl; [discriminate|].
  destruct (f a) as [|b bs] eqn:Ha; simpl.
  - intros H. apply IH in H as (k & y & tl' & Hk & Hy & Hbefore).
    exists (S k), y, tl'. repeat split; try assumption.
    intros [|j] z Hj; simpl; [now intros [= <-]|].
    intros Hz. apply (Hbefore j); [lia|assumption].
  - intros [= -> <-]. exists 0, a, bs. repeat split; try assumption.
    intros j z Hj. lia.
Qed.

(** [pattern.search] on an alternation: besides what [re_search_some]
    says, the match comes from the first branch that matches at that
    position. *)
Lemma re_search_alternation r rs s pre m post :
  re_search (alternation r rs) s = Some (pre, m, post) ->
  s = pre ++ m ++ post /\
  (exists k shape,
      nth_error (r :: rs) k = Some shape /\
      re_match shape (m ++ post) = Some m /\ lang shape m /\
      forall j other, j < k -> nth_error (r :: rs) j = Some other ->
        forall w rest, lang other w -> m ++ post <> w ++ rest) /\
  (forall pre' w post' other, In other (r :: rs) -> lang other w ->
      s = pre' ++ w ++ post' -> length pre <= length pre').
Proof.
  intros H. apply re_search_some in H as (Hs & Hm & Hre & Hleft).
  split; [assumption|]. split.
  - unfold re_match in Hre. rewrite rmatch_alternation in Hre.
    destruct (flat_map _ _) as [|rest others] eqn:Hfm; [discriminate|].
    injection Hre as Hre.
    apply flat_map_head in Hfm as (k & shape & tl' & Hk & Hshape & Hbefore).
    destruct (rmatch_head _ _ Hshape) as (m' & Hm' & Hlang & Hre').
    assert (m' = m) as ->.
    { rewrite <- Hre. rewrite Hm' at 1. now rewrite consumed_app. }
    exists k, shape. repeat split; try assumption.
    intros j other Hj Hother w rest' Hw.
    eapply rmatch_nil; [|exact Hw]. now apply (Hbefore j).
  - intros pre' w post' other Hin Hw. apply Hleft.
    apply lang_alternation. now exists other.
Qed.

Lemma re_search_alternation_none r rs s :
  re_search (alternation r rs) s = None ->
  forall pre w post other, In other (r :: rs) -> lang other w ->
    s <> pre ++ w ++ post.
Proof.
  intros H pre w post other Hin Hw.
  eapply re_search_none; [exact H|]. apply lang_alternation. now exists other.
Qed.

(** Membership in the language of a pattern, decided by running the
    matcher. *)
Lemma lang_by_matching r w : In [] (rmatch r w) -> lang r w.
Proof.
  intros H. apply rmatch_finds in H as (w' & -> & H). now rewrite app_nil_r.
Qed.

(** C6: the date recogniser [date_pattern.search(text)] returns the
    leftmost text of one of the five shapes; at that position the shape
    written first among those that match there decides the match (it is
    that shape's own preferred match), and nothing is returned exactly
    when no text of any shape occurs.  An eight-digit MMDDYYYY string such
    as 12052024 has both the first and the second shape and is taken, as a
    whole, by the first. *)
Theorem find_date_leftmost_first_shape (text : pystr) :
  (forall m, find_date text = Some m ->
     exists pre post k shape,
       text = pre ++ m ++ post /\
       nth_error date_shapes k = Some shape /\
       re_match shape (m ++ post) = Some m /\ lang shape m /\
       (forall j other, j < k -> nth_error date_shapes j = Some other ->
          forall w rest, lang other w -> m ++ post <> w ++ rest) /\
       (forall pre' w post' other, In other date_shapes -> lang other w ->
          text = pre' ++ w ++ post' -> length pre <= length pre')) /\
  (find_date text = None ->
     forall pre w post other, In other date_shapes -> lang other w ->
       text <> pre ++ w ++ post) /\
  (forall pre w post other, In other date_shapes -> lang other w ->
     text = pre ++ w ++ post -> exists m, find_date text = Some m) /\
  (exists first second,
     nth_error date_shapes 0 = Some first /\
     nth_error date_shapes 1 = Some second /\
     lang first (u "12052024") /\ lang second (u "12052024") /\
     find_date (u "12052024") = Some (u "12052024")).
Proof.
  unfold find_date.
  change date_pattern with
    (alternation (hd Eps date_shapes) (tl date_shapes)).
  change date_shapes with (hd Eps date_shapes :: tl date_shapes) at 2 4 5 6.
  split; [|split; [|split]].
  - intros m Hm.
    destruct (re_search _ text) as [[[pre m'] post]|] eqn:Hs; [|discriminate].
    injection Hm as ->.
    apply re_search_alternation in Hs as (Htext & (k & shape & H) & Hleft).
    exists pre, post, k, shape. tauto.
  - destruct (re_search _ text) as [[[pre m'] post]|] eqn:Hs; [discriminate|].
    intros _. now apply re_search_alternation_none.
  - intros pre w post other Hin Hw Htext.
    destruct (re_search _ text) as [[[pre' m'] post']|] eqn:Hs; [now exists m'|].
    exfalso. eapply re_search_alternation_none; [exact Hs|exact Hin|exact Hw|exact Htext].
  - eexists _, _. split; [reflexivity|]. split; [reflexivity|].
    split; [|split].
    + apply lang_by_matching. vm_compute. tauto.
    + apply lang_by_matching. vm_compute. tauto.
    + vm_compute. reflexivity.
Qed.

(** ** Date parsing *)

Lemma strptime_raises date_str fmt e :
  strptime date_str fmt = Raise e -> e = value_error.
Proof.
  unfold strptime.
  destruct (compile_format fmt) as [ps|]; [|congruence].
  destruct (fmatch ps date_str) as [|[g [|c rest]] others]; try congruence.
  destruct (valid_date _ _ _); congruence.
Qed.

Lemma template_date_raises fmt date_str e :
  template_date fmt date_str = Raise e -> e = value_error.
Proof.
  unfold template_date, bind, replace_day.
  destruct (strptime date_str fmt) as [d|e'] eqn:Hs.
  - destruct (str_eqb _ _); [|discriminate].
    destruct (valid_date _ _ _); congruence.
  - intros [= <-]. now apply strptime_raises in Hs.
Qed.

(** The loop returns what the first template that succeeds yields. *)
Lemma parse_date_with_ok formats date_str d :
  parse_date_with formats date_str = Ok d <->
  exists k fmt,
    nth_error formats k = Some fmt /\ template_date fmt date_str = Ok d /\
    forall j other, j < k -> nth_error formats j = Some other ->
      is_ok (template_date other date_str) = false.
Proof.
  induction formats as [|fmt rest IH]; simpl.
  - split; [discriminate|]. intros ([|k] & f & H & _); discriminate.
  - fold (template_date fmt date_str).
    destruct (template_date fmt date_str) as [d'|e] eqn:Ht.
    + split.
      * intros [= ->]. exists 0, fmt. repeat split; try assumption.
        intros j other Hj. lia.
      * intros ([|k] & f & Hk & Hf & Hbefore); simpl in Hk.
        -- injection Hk as <-. congruence.
        -- specialize (Hbefore 0 fmt (Nat.lt_0_succ k) eq_refl).
           rewrite Ht in Hbefore. discriminate.
    + rewrite (template_date_raises _ _ Ht). simpl. rewrite IH. split.
      * intros (k & f & Hk & Hf & Hbefore).
        exists (S k), f. repeat split; try assumption.
        intros [|j] other Hj; simpl.
        -- intros [= <-]. now rewrite Ht.
        -- apply Hbefore. lia.
      * intros ([|k] & f & Hk & Hf & Hbefore); simpl in Hk.
        -- injection Hk as <-. congruence.
        -- exists k, f. repeat split; try assumption.
           intros j other Hj Hother. apply (Hbefore (S j)); [lia|assumption].
Qed.

(** The loop fails, with [ValueError], exactly when every template
    fails. *)
Lemma parse_date_with_raise formats date_str :
  (exists e, parse_date_with formats date_str = Raise e) <->
  forall fmt, In fmt formats -> is_ok (template_date fmt date_str) = false.
Proof.
  induction formats as [|fmt rest IH]; simpl.
  - split; [intros _ f []|]. intros _. now exists value_error.
  - fold (template_date fmt date_str).
    destruct (template_date fmt date_str) as [d'|e] eqn:Ht.
    + split.
      * intros (e & He). discriminate.
      * intros H. specialize (H fmt (or_introl eq_refl)).
        rewrite Ht in H. discriminate.
    + rewrite (template_date_raises _ _ Ht). simpl. rewrite IH. split.
      * intros H f [<-|Hf]; [now rewrite Ht|now apply H].
      * intros H f Hf. apply H. now right.
Qed.

Lemma parse_date_with_raises formats date_str e :
  parse_date_with formats date_str = Raise e -> e = value_error.
Proof.
  induction formats as [|fmt rest IH]; simpl.
  - congruence.
  - fold (template_date fmt date_str).
    destruct (template_date fmt date_str) as [d'|e'] eqn:Ht; [discriminate|].
    rewrite (template_date_raises _ _ Ht). simpl. exact IH.
Qed.

Lemma lang_Eps w : lang Eps w <-> w = [].
Proof.
  simpl. split.
  - intros (n & Hn & Hw). assert (n = 0) as -> by lia. exact Hw.
  - intros ->. exists 0. split; [lia|reflexivity].
Qed.

(** Whatever the matcher of a template consumes is a text of the
    template's regular expression. *)
Lemma fmatch_lang ps s g rest :
  In (g, rest) (fmatch ps s) ->
  exists w, s = w ++ rest /\ lang (format_regex ps) w.
Proof.
  revert s g. induction ps as [|p ps IH]; intros s g; simpl.
  - intros [[= _ <-]|[]]. exists []. split; [reflexivity|]. now apply lang_Eps.
  - destruct p as [c|d]; rewrite in_flat_map; intros (mid & Hmid & Hin).
    + apply (rmatch_finds (Lit c)) in Hmid as (a & -> & Ha).
      apply IH in Hin as (b & -> & Hb).
      exists (a ++ b). split; [now rewrite app_assoc|]. now exists a, b.
    + apply in_map_iff in Hin as ([g' rest'] & [= _ <-] & Hin).
      apply rmatch_finds in Hmid as (a & -> & Ha).
      apply IH in Hin as (b & -> & Hb).
      exists (a ++ b). split; [now rewrite app_assoc|]. now exists a, b.
Qed.

(** A template parses a text only as a whole. *)
Lemma strptime_whole date_str fmt d :
  strptime date_str fmt = Ok d ->
  exists ps, compile_format fmt = Some ps /\ lang (format_regex ps) date_str.
Proof.
  unfold strptime.
  destruct (compile_format fmt) as [ps|]; [|discriminate].
  destruct (fmatch ps date_str) as [|[g [|c rest]] others] eqn:Hf;
    try discriminate.
  intros _. exists ps. split; [reflexivity|].
  assert (In (g, []) (fmatch ps date_str)) as Hin by (rewrite Hf; now left).
  apply fmatch_lang in Hin as (w & -> & Hw). now rewrite app_nil_r.
Qed.

(** C4: [parse_date] on the three sample texts: 2024年3月5日 is 5 March
    2024, 2024-03 is 1 March 2024 (the day defaults to 1), 20240305 is
    5 March 2024. *)
Theorem parse_date_examples :
  parse_date (u "2024年3月5日") = Ok (mkdate 2024 3 5) /\
  parse_date (u "2024-03") = Ok (mkdate 2024 3 1) /\
  parse_date (u "20240305") = Ok (mkdate 2024 3 5).
Proof. repeat split; vm_compute; reflexivity. Qed.

(** C5: [parse_date] tries the templates [%Y年%m月%d日], [%Y%m%d],
    [%Y/%m/%d], [%Y-%m-%d], [%Y-%m] (day 1), [%m%d%Y], [%d%Y/%m] in this
    order and returns the date of the first one that parses the text, which
    a template does only for the whole text; it fails, with [ValueError],
    exactly when none of them parses it. *)
Theorem parse_date_first_template (date_str : pystr) :
  date_formats =
    [u "%Y年%m月%d日"; u "%Y%m%d"; u "%Y/%m/%d"; u "%Y-%m-%d"; u "%Y-%m";
     u "%m%d%Y"; u "%d%Y/%m"] /\
  (forall d,
     parse_date date_str = Ok d <->
     exists k fmt,
       nth_error date_formats k = Some fmt /\
       template_date fmt date_str = Ok d /\
       forall j other, j < k -> nth_error date_formats j = Some other ->
         is_ok (template_date other date_str) = false) /\
  ((exists e, parse_date date_str = Raise e) <->
   forall fmt, In fmt date_formats ->
     is_ok (template_date fmt date_str) = false) /\
  (forall e, parse_date date_str = Raise e -> exn_class e = ValueError) /\
  (forall fmt d, template_date fmt date_str = Ok d ->
     exists ps, compile_format fmt = Some ps /\
                lang (format_regex ps) date_str) /\
  (forall d, template_date (u "%Y-%m") date_str = Ok d -> day d = 1%N).
Proof.
  split; [reflexivity|]. split; [|split; [|split; [|split]]].
  - intros d. apply parse_date_with_ok.
  - apply parse_date_with_raise.
  - intros e He. now rewrite (parse_date_with_raises _ _ He).
  - intros fmt d. unfold template_date, bind.
    destruct (strptime date_str fmt) as [d'|e] eqn:Hs; [|discriminate].
    intros _. exact (strptime_whole _ _ Hs).
  - intros d. unfold template_date, bind.
    destruct (strptime _ _) as [d'|e]; [|discriminate].
    change (str_eqb (u "%Y-%m") (u "%Y-%m")) with true. cbv iota.
    unfold replace_day. destruct (valid_date _ _ _); [|discriminate].
    now intros [= <-].
Qed.

(** ** Categories *)

(** [categorize_in] returns the category of the first item one of whose
    keywords occurs in the title, and the default when there is none. *)
Lemma categorize_in_first items t :
  (exists k category keywords,
      nth_error items k = Some (category, keywords) /\
      existsb (fun kw => contains kw t) keywords = true /\
      (forall j c kws, j < k -> nth_error items j = Some (c, kws) ->
         existsb (fun kw => contains kw t) kws = false) /\
      categorize_in items t = category) \/
  ((forall c kws, In (c, kws) items ->
      existsb (fun kw => contains kw t) kws = false) /\
   categorize_in items t = u "其他").
Proof.
  induction items as [|[category keywords] rest IH]; simpl.
  - right. split; [intros c kws []|reflexivity].
  - destruct (existsb _ keywords) eqn:Hk.
    + left. exists 0, category, keywords. repeat split; try assumption.
      intros j c kws Hj. lia.
    + destruct IH as [(k & c & kws & Hn & He & Hbefore & Hc)|[Hnone Hc]].
      * left. exists (S k), c, kws. repeat split; try assumption.
        intros [|j] c' kws' Hj; simpl.
        -- now intros [= <- <-].
        -- apply Hbefore. lia.
      * right. split; [|assumption].
        intros c kws [[= <- <-]|Hin]; [assumption|now apply (Hnone c)].
Qed.

(** C1, as the code has it: for the title 复旦大学举办学术讲座 the first
    category in the order of [category_mapping] with a keyword in the
    title is 大学 (the fourth, by its keyword 大学), and that is what
    [categorize_news] returns, although keywords of the later categories
    学术 (学术) and 活动 (讲座) occur in the title as well. *)
Theorem categorize_first_match_example (rt : runtime) :
  let title := u "复旦大学举办学术讲座" in
  categorize_news rt title = u "大学" /\
  map fst category_mapping =
    [u "招生"; u "科研"; u "校园"; u "大学"; u "学术"; u "活动"; u "公告"] /\
  contains (u "大学") (lower rt title) = true /\
  contains (u "学术") (lower rt title) = true /\
  contains (u "讲座") (lower rt title) = true /\
  (forall j c kws, j < 3 -> nth_error category_mapping j = Some (c, kws) ->
     existsb (fun kw => contains kw (lower rt title)) kws = false).
Proof.
  cbv zeta. repeat split; try (vm_compute; reflexivity).
  intros j c kws Hj.
  destruct j as [|[|[|j]]]; [| | |lia]; intros [= <- <-]; vm_compute; reflexivity.
Qed.

(** C1, as the specification words it, fails: the category returned for
    复旦大学举办学术讲座 is not 活动. *)
Lemma categorize_example_is_not_activity :
  categorize_news sample_runtime (u "复旦大学举办学术讲座") <> u "活动".
Proof. vm_compute. discriminate. Qed.

(** ** Extraction *)

Lemma has_chinese_true t :
  has_chinese t = true -> exists c, In c t /\ is_chinese c.
Proof.
  unfold has_chinese.
  destruct (re_search chinese_pattern t) as [[[pre m] post]|] eqn:Hs;
    [|discriminate].
  intros _. apply re_search_some in Hs as (-> & (c & -> & Hc) & _).
  exists c. split; [|exact Hc].
  apply in_or_app. right. now left.
Qed.

(** One turn of the loop leaves the list as it is or appends one record,
    whose title passed the filters. *)
Lemma extract_link_appends rt base_url link parents news_list out :
  extract_link rt base_url link parents news_list = Ok out ->
  out = news_list \/
  exists n, out = news_list ++ [n] /\ title n = link_title rt link /\
            acceptable_title (title n).
Proof.
  unfold extract_link, bind.
  destruct (negb (nonempty _) || _) eqn:Hlen; [intros [= <-]; now left|].
  destruct (negb (has_chinese _)) eqn:Hch; [intros [= <-]; now left|].
  destruct (urljoin _ _ _) as [url|e]; [|discriminate].
  destruct (date_near _) as [date_str|]; [|intros [= <-]; now left].
  destruct (nonempty url); [|intros [= <-]; now left].
  destruct (parse_date date_str) as [d|e].
  - intros [= <-]. right. eexists. split; [reflexivity|]. split; [reflexivity|].
    simpl. split.
    + apply orb_false_iff in Hlen as [_ Hlen].
      apply Nat.ltb_ge in Hlen. exact Hlen.
    + apply has_chinese_true. now apply negb_false_iff in Hch.
  - destruct (catches _ e); [intros [= <-]; now left|discriminate].
Qed.

Lemma extract_links_acceptable rt base_url links news_list out :
  extract_links rt base_url links news_list = Ok out ->
  Forall (fun n => acceptable_title (title n)) news_list ->
  Forall (fun n => acceptable_title (title n)) out.
Proof.
  revert news_list. induction links as [|[link parents] rest IH];
    intros news_list; simpl.
  - now intros [= <-].
  - unfold bind.
    destruct (extract_link _ _ _ _ _) as [mid|e] eqn:Hl; [|discriminate].
    intros Hout Hall. apply (IH _ Hout).
    apply extract_link_appends in Hl as [->|(n & -> & _ & Hn)]; [assumption|].
    apply Forall_app. split; [assumption|]. now constructor.
Qed.

(** C3: every record [extract_news] returns has a title of at least eight
    characters with at least one Chinese character in it. *)
Theorem extract_news_titles_acceptable rt html_content base_url news_list :
  extract_news rt html_content base_url = Ok news_list ->
  Forall (fun n => 8 <= length (title n) /\
                   exists c, In c (title n) /\ (0x4E00 <= c <= 0x9FA5)%N)
         news_list.
Proof.
  unfold extract_news, bind.
  destruct (html_parser rt html_content) as [soup|e]; [|discriminate].
  intros H. eapply extract_links_acceptable; [exact H|constructor].
Qed.

Lemma extract_news_titles_acceptable_witness :
  extract_news sample_runtime shu_html shu_base
  = Ok [{| title := shu_title; url := u "https://news.shu.edu.cn/news/1.htm";
           date := u "2024-05-10" |}] /\
  Forall (fun n => 8 <= length (title n) /\
                   exists c, In c (title n) /\ (0x4E00 <= c <= 0x9FA5)%N)
    [{| title := shu_title; url := u "https://news.shu.edu.cn/news/1.htm";
        date := u "2024-05-10" |}].
Proof.
  split; [vm_compute; reflexivity|].
  apply (@extract_news_titles_acceptable sample_runtime shu_html shu_base).
  vm_compute. reflexivity.
Defined.

(** The link of the scenario, under a parent whose text has 2024-05-10 as
    its first date, gives the record of the scenario. *)
Lemma extract_shu_link rt parent parents news_list :
  find_date (get_text parent) = Some (u "2024-05-10") ->
  extract_link rt shu_base shu_link (parent :: parents) news_list
  = Ok (news_list ++ [shu_news]).
Proof.
  intros Hdate. unfold extract_link.
  replace (link_title rt shu_link) with shu_title by (vm_compute; reflexivity).
  replace (urljoin rt shu_base (link_href shu_link))
    with (Ok (A := pystr) (u "https://news.shu.edu.cn/news/1.htm"))
    by (vm_compute; reflexivity).
  change (date_near (shu_link :: parent :: parents))
    with (match find_date (get_text shu_link) with
          | Some d => Some d
          | None => match find_date (get_text parent) with
                    | Some d => Some d
                    | None => date_near parents
                    end
          end).
  rewrite Hdate.
  vm_compute. reflexivity.
Qed.

(** C2: a page whose only link is [<a href='/news/1.htm'>] with the text
    上海大学召开2024年招生工作会议, inside a [span] whose text has the date
    2024-05-10, extracted against the base
    https://news.shu.edu.cn/index/zyxw.htm, gives exactly one record: that
    title, the URL https://news.shu.edu.cn/news/1.htm and the date
    2024-05-10; the category of the title is 招生. *)
Theorem end_to_end_scenario rt html_content soup span_attrs span_contents
  parents :
  html_parser rt html_content = Ok soup ->
  find_all_a_href soup
  = [(shu_link, Tag (u "span") span_attrs span_contents :: parents)] ->
  find_date (get_text (Tag (u "span") span_attrs span_contents))
  = Some (u "2024-05-10") ->
  extract_news rt html_content shu_base
  = Ok [{| title := u "上海大学召开2024年招生工作会议";
           url := u "https://news.shu.edu.cn/news/1.htm";
           date := u "2024-05-10" |}] /\
  categorize_news rt (u "上海大学召开2024年招生工作会议") = u "招生".
Proof.
  intros Hparse Hlinks Hdate. split; [|vm_compute; reflexivity].
  unfold extract_news, bind. rewrite Hparse, Hlinks. simpl extract_links.
  unfold bind. erewrite extract_shu_link; [reflexivity|exact Hdate].
Qed.

Lemma end_to_end_scenario_witness :
  extract_news sample_runtime shu_html shu_base = Ok [shu_news] /\
  categorize_news sample_runtime shu_title = u "招生".
Proof.
  apply (@end_to_end_scenario sample_runtime shu_html shu_page []
           [Text (u "2024-05-10"); shu_link] [shu_page]);
    vm_compute; reflexivity.
Defined.

(** A link whose date text no template parses leaves the list as it is:
    the [ValueError] of [parse_date] is caught. *)
Lemma bad_date_is_skipped rt base_url link parents news_list url date_str e :
  urljoin rt base_url (link_href link) = Ok url ->
  date_near (link :: parents) = Some date_str ->
  parse_date date_str = Raise e ->
  extract_link rt base_url link parents news_list = Ok news_list.
Proof.
  intros Hurl Hdate Hparse. unfold extract_link, bind.
  destruct (negb (nonempty _) || _); [reflexivity|].
  destruct (negb (has_chinese _)); [reflexivity|].
  rewrite Hurl, Hdate, Hparse.
  destruct (nonempty url); [|reflexivity].
  now rewrite (parse_date_with_raises _ _ Hparse).
Qed.

(** The loop over a list of links with such a link in it does what it
    does on the list without that link. *)
Lemma extract_links_without_bad_date rt base_url before link parents after
  news_list url date_str e :
  urljoin rt base_url (link_href link) = Ok url ->
  date_near (link :: parents) = Some date_str ->
  parse_date date_str = Raise e ->
  extract_links rt base_url (before ++ (link, parents) :: after) news_list
  = extract_links rt base_url (before ++ after) news_list.
Proof.
  intros Hurl Hdate Hparse. revert news_list.
  induction before as [|[l ps] before IH]; intros news_list; simpl.
  - erewrite bad_date_is_skipped; [reflexivity|exact Hurl|exact Hdate|exact Hparse].
  - unfold bind. destruct (extract_link _ _ _ _ _); [apply IH|reflexivity].
Qed.

(** What makes [extract_news] raise: the parser, or [urljoin] on the
    [href] of a link whose title passed the filters. *)
Lemma extract_links_raise rt base_url links news_list e :
  extract_links rt base_url links news_list = Raise e ->
  exists link parents,
    In (link, parents) links /\
    urljoin rt base_url (link_href link) = Raise e.
Proof.
  revert news_list. induction links as [|[link parents] rest IH];
    intros news_list; simpl; [discriminate|].
  unfold bind.
  destruct (extract_link _ _ _ _ _) as [mid|e'] eqn:Hl.
  - intros H. apply IH in H as (l & ps & Hin & Hraise).
    exists l, ps. split; [now right|assumption].
  - intros [= <-]. exists link, parents. split; [now left|].
    revert Hl. unfold extract_link, bind.
    destruct (negb (nonempty _) || _); [discriminate|].
    destruct (negb (has_chinese _)); [discriminate|].
    destruct (urljoin _ _ _) as [url|e'']; [|congruence].
    destruct (date_near _) as [date_str|]; [|discriminate].
    destruct (nonempty url); [|discriminate].
    destruct (parse_date date_str) as [d|e''] eqn:Hp; [discriminate|].
    now rewrite (parse_date_with_raises _ _ Hp).
Qed.

(** C7, where the code departs from it: on a page that [html.parser]
    parses, a link whose [href] is [//[] makes [urljoin] raise
    [ValueError] outside the [try] block, and the whole call raises it;
    the record of the well-formed link before it is lost with it. *)
Theorem malformed_href_aborts_extraction rt html_content :
  html_parser rt html_content = Ok bad_href_page ->
  extract_news rt html_content shu_base = Raise value_error /\
  extract_news rt html_content shu_base <> Ok [shu_news].
Proof.
  intros Hparse.
  assert (extract_news rt html_content shu_base = Raise value_error) as H.
  { unfold extract_news, bind. rewrite Hparse. vm_compute. reflexivity. }
  split; [exact H|]. rewrite H. discriminate.
Qed.

Lemma malformed_href_aborts_extraction_witness :
  html_parser sample_runtime bad_href_html = Ok bad_href_page /\
  extract_news sample_runtime bad_href_html shu_base = Raise value_error /\
  extract_news sample_runtime bad_href_html shu_base <> Ok [shu_news].
Proof.
  split; [vm_compute; reflexivity|].
  apply (@malformed_href_aborts_extraction sample_runtime bad_href_html).
  vm_compute. reflexivity.
Defined.

(** The page with the unparsable date gives the record of the other
    link. *)
Example bad_date_page_extracted rt html_content :
  html_parser rt html_content = Ok bad_date_page ->
  extract_news rt html_content shu_base = Ok [shu_news].
Proof.
  intros Hparse. unfold extract_news, bind. rewrite Hparse.
  vm_compute. reflexivity.
Qed.

(** ** The link probe *)

(** Every exception of a failed probe derives from [RequestException] or
    from [ValueError]. *)
Lemma probe_failure_caught c :
  probe_failure c = true ->
  existsb (issubclass c) [RequestException; ValueError] = true.
Proof. destruct c; vm_compute; intros H; congruence. Qed.

(** C9: [check_url_availability] does not raise: whatever the probe does
    (a response, or one of the network, timeout and malformed-URL
    exceptions), it returns a boolean; the boolean is true only for a
    response with status 200, and false for every exception. *)
Theorem check_url_availability_never_raises (net : network) url timeout :
  (forall e, net url timeout = Raise e -> probe_failure (exn_class e) = true) ->
  exists b,
    check_url_availability net url timeout = Ok b /\
    (b = true <-> net url timeout = Ok 200%Z) /\
    (forall e, net url timeout = Raise e -> b = false).
Proof.
  intros Hnet. unfold check_url_availability.
  destruct (net url timeout) as [status_code|e].
  - exists (status_code =? 200)%Z. split; [reflexivity|]. split; [|discriminate].
    rewrite Z.eqb_eq. split; congruence.
  - unfold catches. rewrite (probe_failure_caught _ (Hnet e eq_refl)).
    exists false. split; [reflexivity|]. split; [|reflexivity].
    split; discriminate.
Qed.

Lemma check_url_availability_never_raises_witness :
  exists b,
    check_url_availability dead_network (u "http://[") default_timeout = Ok b /\
    (b = true <-> dead_network (u "http://[") default_timeout = Ok 200%Z) /\
    (forall e, dead_network (u "http://[") default_timeout = Raise e ->
               b = false).
Proof.
  apply (@check_url_availability_never_raises dead_network).
  intros e [= <-]. vm_compute. reflexivity.
Defined.

(** ** Storage *)

Lemma everything_is_an_exception e : catches [Exception] e = true.
Proof. destruct e as [c code]. destruct c; vm_compute; reflexivity. Qed.

Lemma title_taken_app db t added r :
  title_taken db (t ++ added) r = false -> title_taken db t r = false.
Proof.
  unfold title_taken. rewrite existsb_app. now intros [H _]%orb_false_iff.
Qed.

(** What the loop has done when it ends normally: rows were appended, one
    per count, each for an item of the batch whose link was reachable and
    whose title was not in the table. *)
Lemma insert_loop_appends rt db net data n t n' t' :
  insert_loop rt db net data n t = Ok (n', t') ->
  exists added,
    t' = t ++ added /\ n' = (n + Z.of_nat (length added))%Z /\
    forall r, In r added ->
      title_taken db t r = false /\
      exists item, In item data /\ r = row_of rt item /\
        check_url_availability net (item_url item) default_timeout = Ok true.
Proof.
  revert n t. induction data as [|item rest IH]; intros n t;
    cbn [insert_loop].
  - intros [= <- <-]. exists []. rewrite app_nil_r. simpl.
    split; [reflexivity|]. split; [lia|]. intros r [].
  - unfold bind.
    destruct (check_url_availability _ _ _) as [[|]|e] eqn:Hcheck;
      [| |discriminate]; cbn [negb].
    + unfold execute_insert.
      destruct (statement_error db t (row_of rt item)) as [e|] eqn:Hst.
      * destruct (catches [IntegrityError] e); [|discriminate].
        destruct (exn_code e =? 1062)%Z; [|discriminate].
        intros H. apply IH in H as (added & -> & -> & Hadded).
        exists added. repeat split; try reflexivity.
        -- now apply Hadded.
        -- destruct (Hadded r H) as (_ & it & Hin & Hr & Hc).
           exists it. split; [now right|]. now split.
      * destruct (title_taken db t (row_of rt item)) eqn:Htaken.
        -- change (catches [IntegrityError] duplicate_entry) with true.
           change (exn_code duplicate_entry =? 1062)%Z with true. cbv iota.
           intros H. apply IH in H as (added & -> & -> & Hadded).
           exists added. repeat split; try reflexivity.
           ++ now apply Hadded.
           ++ destruct (Hadded r H) as (_ & it & Hin & Hr & Hc).
              exists it. split; [now right|]. now split.
        -- intros H. apply IH in H as (added & -> & -> & Hadded).
           exists (row_of rt item :: added).
           rewrite <- app_assoc. simpl. split; [reflexivity|].
           split; [lia|].
           intros r [<-|Hr].
           ++ split; [assumption|]. exists item. split; [now left|].
              now split.
           ++ destruct (Hadded r Hr) as (Ht & it & Hin & Hrow & Hc).
              split; [now apply title_taken_app in Ht|].
              exists it. split; [now right|]. now split.
    + intros H. apply IH in H as (added & -> & -> & Hadded).
      exists added. repeat split; try reflexivity.
      * now apply Hadded.
      * destruct (Hadded r H) as (_ & it & Hin & Hr & Hc).
        exists it. split; [now right|]. now split.
Qed.

(** C8: [insert_news_data] does not raise; the rows it adds are as many
    as the count it returns; every added row comes from a record of the
    batch whose link the probe found reachable, and its title was not in
    storage before; a record whose link is unreachable, and a record whose
    insert meets the duplicate-title error 1062, are passed over and the
    loop goes on with the rest of the batch; and an insert whose title is
    already in storage meets that error. *)
Theorem insert_news_data_counts rt db net stored data :
  (exists n added,
     insert_news_data rt db net stored data = Ok (n, stored ++ added) /\
     n = Z.of_nat (length added) /\
     forall r, In r added ->
       title_taken db stored r = false /\
       exists item, In item data /\ r = row_of rt item /\
         check_url_availability net (item_url item) default_timeout
         = Ok true) /\
  (forall item rest n t,
     check_url_availability net (item_url item) default_timeout = Ok false \/
     (check_url_availability net (item_url item) default_timeout = Ok true /\
      execute_insert db t (row_of rt item) = Raise duplicate_entry) ->
     insert_loop rt db net (item :: rest) n t
     = insert_loop rt db net rest n t) /\
  (forall t r,
     title_taken db t r = true -> statement_error db t r = None ->
     execute_insert db t r = Raise duplicate_entry).
Proof.
  split; [|split].
  - unfold insert_news_data.
    destruct (connect_error db) as [e|].
    { rewrite everything_is_an_exception. exists 0%Z, [].
      rewrite app_nil_r. split; [reflexivity|]. split; [reflexivity|].
      intros r []. }
    unfold bind.
    destruct (insert_loop rt db net data 0 stored) as [[n t]|e] eqn:Hloop.
    + destruct (commit_error db) as [e|].
      { rewrite everything_is_an_exception. exists 0%Z, [].
        rewrite app_nil_r. split; [reflexivity|]. split; [reflexivity|].
        intros r []. }
      apply insert_loop_appends in Hloop as (added & -> & -> & Hadded).
      exists (Z.of_nat (length added)), added.
      split; [reflexivity|]. split; [reflexivity|exact Hadded].
    + rewrite everything_is_an_exception. exists 0%Z, [].
      rewrite app_nil_r. split; [reflexivity|]. split; [reflexivity|].
      intros r [].
  - intros item rest n t [Hc|[Hc He]]; simpl; unfold bind; rewrite Hc; simpl.
    + reflexivity.
    + rewrite He. reflexivity.
  - intros t r Htaken Hst. unfold execute_insert. now rewrite Hst, Htaken.
Qed.

(** A batch against a table that holds the first title already: the
    stored title, a dead link and a title repeated within the batch are
    passed over, the two new titles are inserted. *)
Example insert_batch :
  let stored := [row_of sample_runtime (shu_item "上海大学召开2024年招生工作会议" "https://news.shu.edu.cn/news/1.htm")] in
  insert_news_data sample_runtime strict_mysql patchy_network stored
    [shu_item "上海大学召开2024年招生工作会议" "https://news.shu.edu.cn/news/1.htm";
     shu_item "上海大学发布最新校园公告" "https://gone.example/2.htm";
     shu_item "上海大学举办学术讲座通知" "https://news.shu.edu.cn/news/3.htm";
     shu_item "上海大学举办学术讲座通知" "https://news.shu.edu.cn/news/4.htm";
     shu_item "上海大学发布最新校园公告" "https://news.shu.edu.cn/news/5.htm"]
  = Ok (2%Z,
        stored ++
        [row_of sample_runtime (shu_item "上海大学举办学术讲座通知" "https://news.shu.edu.cn/news/3.htm");
         row_of sample_runtime (shu_item "上海大学发布最新校园公告" "https://news.shu.edu.cn/news/5.htm")]).
Proof. vm_compute. reflexivity. Qed.

(** A failure of the server other than a duplicate title ends the batch:
    nothing is committed and the count is 0. *)
Example insert_batch_aborted :
  insert_news_data sample_runtime strict_mysql patchy_network []
    [shu_item "上海大学举办学术讲座通知" "https://news.shu.edu.cn/news/3.htm";
     {| item_university_name := u "上海大学";
        item_title := u "上海大学发布最新校园公告";
        item_date := u "2024-05-10"; item_url := long_url |}]
  = Ok (0%Z, []).
Proof. vm_compute. reflexivity. Qed.

(** ** Duplicates *)

Lemma twice_page_extracted rt html :
  html_parser rt html = Ok twice_page ->
  extract_news rt html shu_base = Ok [twice_first; twice_second].
Proof.
  intros Hparse. unfold extract_news, bind. rewrite Hparse.
  vm_compute. reflexivity.
Qed.

(** Of the two, storage takes the first only. *)
Lemma twice_inserted_once rt :
  insert_news_data rt quiet_mysql open_network []
    (map (formatted (u "复旦大学")) [twice_first; twice_second])
  = Ok (1%Z, [row_of rt (formatted (u "复旦大学") twice_first)]).
Proof. vm_compute. reflexivity. Qed.

(** C10: [extract_news] does not deduplicate: the sample page with two
    links of the same title (twelve characters, Chinese), each with a date
    next to it, gives two records with that one title; only the insert
    into storage keeps the second out. *)
Theorem extract_news_keeps_duplicate_titles :
  exists html_content soup n1 n2,
    html_parser sample_runtime html_content = Ok soup /\
    length (find_all_a_href soup) = 2 /\
    (forall rt html, html_parser rt html = Ok soup ->
       extract_news rt html shu_base = Ok [n1; n2]) /\
    title n1 = title n2 /\ url n1 <> url n2 /\
    8 <= length (title n1) /\ has_chinese (title n1) = true /\
    (forall rt,
       insert_news_data rt quiet_mysql open_network []
         (map (formatted (u "复旦大学")) [n1; n2])
       = Ok (1%Z, [row_of rt (formatted (u "复旦大学") n1)])).
Proof.
  exists twice_html, twice_page, twice_first, twice_second.
  split; [vm_compute; reflexivity|].
  split; [vm_compute; reflexivity|].
  split; [exact twice_page_extracted|].
  split; [vm_compute; reflexivity|].
  split; [vm_compute; discriminate|].
  split; [vm_compute; lia|].
  split; [vm_compute; reflexivity|].
  exact twice_inserted_once.
Qed.

(** ** Categories, in general *)

Lemma startswith_prefix p s : startswith p s = true <-> exists b, s = p ++ b.
Proof.
  revert s. induction p as [|a p IH]; intros [|c s]; simpl.
  - split; [now exists []|reflexivity].
  - split; [now exists (c :: s)|reflexivity].
  - split; [discriminate|]. intros (b & H). discriminate.
  - rewrite andb_true_iff, N.eqb_eq, IH. split.
    + intros [-> (b & ->)]. now exists b.
    + intros (b & [= -> ->]). split; [reflexivity|now exists b].
Qed.

(** [kw in s] is the substring test. *)
Lemma contains_occurs kw s : contains kw s = true <-> occurs_in kw s.
Proof.
  unfold occurs_in. induction s as [|c s IH]; simpl.
  - rewrite orb_false_r, startswith_prefix. split.
    + intros (b & H). now exists [], b.
    + intros ([|x a] & b & H); [now exists b|discriminate].
  - rewrite orb_true_iff, startswith_prefix, IH. split.
    + intros [(b & H)|(a & b & ->)]; [now exists [], b|now exists (c :: a), b].
    + intros ([|x a] & b & H); [left; now exists b|].
      injection H as <- ->. right. now exists a, b.
Qed.

Lemma existsb_contains keywords t :
  existsb (fun kw => contains kw t) keywords = true <-> names_one_of keywords t.
Proof.
  unfold names_one_of. rewrite existsb_exists.
  split; intros (kw & Hin & H); exists kw; (split; [assumption|]);
    now apply contains_occurs.
Qed.

Lemma existsb_contains_not keywords t :
  existsb (fun kw => contains kw t) keywords = false <->
  ~ names_one_of keywords t.
Proof.
  rewrite <- existsb_contains. now destruct (existsb _ keywords).
Qed.

(** X1: [categorize_news] returns the category of the first entry of
    [category_mapping], in the order written, one of whose keywords occurs
    in the lower-cased title as a substring; it returns 其他 exactly when
    no keyword of any category occurs in it. *)
Theorem categorize_news_first_keyword (rt : runtime) (title : pystr) :
  (exists k category keywords,
     nth_error category_mapping k = Some (category, keywords) /\
     names_one_of keywords (lower rt title) /\
     (forall j c kws, j < k -> nth_error category_mapping j = Some (c, kws) ->
        ~ names_one_of kws (lower rt title)) /\
     categorize_news rt title = category) \/
  ((forall c kws, In (c, kws) category_mapping ->
      ~ names_one_of kws (lower rt title)) /\
   categorize_news rt title = u "其他").
Proof.
  unfold categorize_news.
  destruct (categorize_in_first category_mapping (lower rt title))
    as [(k & c & kws & Hn & He & Hbefore & Hc)|[Hnone Hc]].
  - left. exists k, c, kws. repeat split; try assumption.
    + now apply existsb_contains.
    + intros j c' kws' Hj Hn'. apply existsb_contains_not.
      now apply (Hbefore j c').
  - right. split; [|assumption].
    intros c kws Hin. apply existsb_contains_not. now apply (Hnone c).
Qed.

(** ** Dates, in general *)

Lemma strptime_valid date_str fmt d :
  strptime date_str fmt = Ok d -> valid_date (year d) (month d) (day d) = true.
Proof.
  unfold strptime.
  destruct (compile_format fmt) as [ps|]; [|discriminate].
  destruct (fmatch ps date_str) as [|[g [|c rest]] others]; try discriminate.
  destruct (valid_date _ _ _) eqn:Hv; [|discriminate].
  now intros [= <-].
Qed.

Lemma template_date_valid fmt date_str d :
  template_date fmt date_str = Ok d ->
  valid_date (year d) (month d) (day d) = true.
Proof.
  unfold template_date, bind, replace_day.
  destruct (strptime date_str fmt) as [t|e] eqn:Hs; [|discriminate].
  destruct (str_eqb _ _).
  - destruct (valid_date _ _ 1) eqn:Hv; [|discriminate]. now intros [= <-].
  - intros [= <-]. now apply strptime_valid in Hs.
Qed.

Lemma valid_date_bounds y m d :
  valid_date y m d = true ->
  (1 <= y <= 9999 /\ 1 <= m <= 12 /\ 1 <= d <= days_in_month y m)%N.
Proof.
  unfold valid_date. rewrite !andb_true_iff, !N.leb_le. tauto.
Qed.

Lemma days_in_month_bounds y m : (28 <= days_in_month y m <= 31)%N.
Proof.
  unfold days_in_month.
  destruct (m =? 2)%N; [destruct (is_leap y); lia|].
  destruct (_ || _); lia.
Qed.

(** X2: a date that [parse_date] returns is a date of the calendar: the
    year from 1 to 9999, the month from 1 to 12, the day from 1 to the
    length of that month, so at most 29 in February, and 29 there only in
    a leap year.  A text such as 2024-02-30 is not turned into a date. *)
Theorem parse_date_gives_calendar_dates (date_str : pystr) (d : datetime) :
  parse_date date_str = Ok d ->
  (1 <= year d <= 9999)%N /\ (1 <= month d <= 12)%N /\
  (1 <= day d <= days_in_month (year d) (month d))%N /\
  (days_in_month (year d) (month d) <= 31)%N /\
  (month d = 2%N -> (day d <= 29)%N /\
     (day d = 29%N -> is_leap (year d) = true)).
Proof.
  unfold parse_date. intros H.
  apply parse_date_with_ok in H as (k & fmt & _ & H & _).
  apply template_date_valid, valid_date_bounds in H.
  destruct H as (Hy & Hm & Hd).
  pose proof (days_in_month_bounds (year d) (month d)) as Hb.
  split; [lia|]. split; [lia|]. split; [lia|]. split; [lia|].
  intros Hm2. rewrite Hm2 in Hd. unfold days_in_month in Hd. simpl in Hd.
  destruct (is_leap (year d)); split; try lia; reflexivity.
Qed.

Lemma parse_date_gives_calendar_dates_witness :
  parse_date (u "2024/02/29") = Ok (mkdate 2024 2 29) /\
  (1 <= 2024 <= 9999)%N /\ (1 <= 2 <= 12)%N /\
  (1 <= 29 <= days_in_month 2024 2)%N /\
  (days_in_month 2024 2 <= 31)%N /\
  ((2 = 2)%N -> (29 <= 29)%N /\ ((29 = 29)%N -> is_leap 2024 = true)).
Proof.
  split; [vm_compute; reflexivity|].
  apply (@parse_date_gives_calendar_dates (u "2024/02/29") (mkdate 2024 2 29)).
  vm_compute. reflexivity.
Defined.

(** ** Normalised dates read back *)

Ltac div_lia := zify; Z.to_euclidean_division_equations; lia.

Lemma decimal_ascii v : (v <= 9)%N -> decimal (48 + v) = Some v.
Proof.
  intros H.
  assert (In v [0; 1; 2; 3; 4; 5; 6; 7; 8; 9]%N) as Hin by (simpl; lia).
  simpl in Hin.
  repeat (destruct Hin as [<-|Hin]; [vm_compute; reflexivity|]).
  destruct Hin.
Qed.

Lemma is_digit_ascii v : (v <= 9)%N -> is_digit (48 + v) = true.
Proof. intros H. unfold is_digit. now rewrite decimal_ascii. Qed.

Lemma decimal_text_year y :
  (1000 <= y <= 9999)%N ->
  decimal_text 4 y []
  = [48 + y / 1000; 48 + (y / 100) mod 10; 48 + (y / 10) mod 10;
     48 + y mod 10]%N.
Proof.
  intros H. cbn [decimal_text].
  change (chr "0") with 48%N.
  rewrite !N.Div0.div_div. change (10 * 10)%N with 100%N.
  change (100 * 10)%N with 1000%N. change (1000 * 10)%N with 10000%N.
  assert ((y / 10 =? 0)%N = false) as -> by (apply N.eqb_neq; div_lia).
  assert ((y / 100 =? 0)%N = false) as -> by (apply N.eqb_neq; div_lia).
  assert ((y / 1000 =? 0)%N = false) as -> by (apply N.eqb_neq; div_lia).
  assert ((y / 10000 =? 0)%N = true) as -> by (apply N.eqb_eq; div_lia).
  assert ((y / 1000) mod 10 = y / 1000)%N as -> by div_lia.
  reflexivity.
Qed.

Lemma int_of_year a b c e :
  (a <= 9)%N -> (b <= 9)%N -> (c <= 9)%N -> (e <= 9)%N ->
  int_of [48 + a; 48 + b; 48 + c; 48 + e]%N
  = (1000 * a + 100 * b + 10 * c + e)%N.
Proof.
  intros Ha Hb Hc He. unfold int_of. cbn [fold_left].
  rewrite !decimal_ascii by assumption. lia.
Qed.

Lemma int_of_two_digits n : (n <= 99)%N -> int_of (two_digits n) = n.
Proof.
  intros H. unfold int_of, two_digits. cbn [fold_left].
  change (chr "0") with 48%N.
  rewrite !decimal_ascii by div_lia. div_lia.
Qed.

(** [%Y] takes four digits and nothing else. *)
Lemma rmatch_year y1 y2 y3 y4 rest :
  is_digit y1 = true -> is_digit y2 = true -> is_digit y3 = true ->
  is_digit y4 = true ->
  rmatch (directive_re dY) (y1 :: y2 :: y3 :: y4 :: rest) = [rest].
Proof.
  intros H1 H2 H3 H4. cbn [directive_re cat_all rmatch accepts_chr flat_map].
  rewrite H1. cbn [flat_map app accepts_chr]. rewrite H2.
  cbn [flat_map app accepts_chr]. rewrite H3. cbn [flat_map app accepts_chr].
  rewrite H4. reflexivity.
Qed.

Lemma fmatch_year ps y1 y2 y3 y4 rest :
  is_digit y1 = true -> is_digit y2 = true -> is_digit y3 = true ->
  is_digit y4 = true ->
  fmatch (PDir dY :: ps) (y1 :: y2 :: y3 :: y4 :: rest)
  = map (fun gr => ((dY, [y1; y2; y3; y4]) :: fst gr, snd gr))
        (fmatch ps rest).
Proof.
  intros H1 H2 H3 H4. cbn [fmatch]. rewrite rmatch_year by assumption.
  cbn [flat_map]. rewrite app_nil_r.
  change (y1 :: y2 :: y3 :: y4 :: rest) with ([y1; y2; y3; y4] ++ rest).
  now rewrite consumed_app.
Qed.

(** [\d{4}] likewise. *)
Lemma rmatch_digits_4 y1 y2 y3 y4 rest :
  is_digit y1 = true -> is_digit y2 = true -> is_digit y3 = true ->
  is_digit y4 = true ->
  rmatch (digits 4) (y1 :: y2 :: y3 :: y4 :: rest) = [rest].
Proof.
  intros H1 H2 H3 H4. unfold digits.
  cbn [rmatch exactly accepts_chr flat_map].
  rewrite H1. cbn [flat_map app accepts_chr]. rewrite H2.
  cbn [flat_map app accepts_chr]. rewrite H3. cbn [flat_map app accepts_chr].
  rewrite H4. reflexivity.
Qed.

(** The text [-mm-dd] of a month and a day. *)
Lemma month_day_cases (P : N -> N -> Prop) :
  (forall m d, In m [1; 2; 3; 4; 5; 6; 7; 8; 9; 10; 11; 12]%N ->
     In d [1; 2; 3; 4; 5; 6; 7; 8; 9; 10; 11; 12; 13; 14; 15; 16; 17; 18;
           19; 20; 21; 22; 23; 24; 25; 26; 27; 28; 29; 30; 31]%N -> P m d) ->
  forall m d, (1 <= m <= 12)%N -> (1 <= d <= 31)%N -> P m d.
Proof. intros H m d Hm Hd. apply H; simpl; lia. Qed.

Lemma fmatch_month_day m d :
  (1 <= m <= 12)%N -> (1 <= d <= 31)%N ->
  hd_error (fmatch [PLit 45; PDir dm; PLit 45; PDir dd]
              (45 :: two_digits m ++ 45 :: two_digits d)%N)
  = Some ([(dm, two_digits m); (dd, two_digits d)], []).
Proof.
  revert m d. apply month_day_cases. intros m d Hm Hd.
  simpl in Hm.
  repeat (destruct Hm as [<-|Hm];
    [simpl in Hd;
     repeat (destruct Hd as [<-|Hd]; [vm_compute; reflexivity|]);
     destruct Hd|]).
  destruct Hm.
Qed.

Lemma rmatch_month_day m d :
  (1 <= m <= 12)%N -> (1 <= d <= 31)%N ->
  hd_error (rmatch (cat_all [sep_opt; digits_1_2; sep_opt; digits_1_2])
              (45 :: two_digits m ++ 45 :: two_digits d)%N)
  = Some [].
Proof.
  revert m d. apply month_day_cases. intros m d Hm Hd.
  simpl in Hm.
  repeat (destruct Hm as [<-|Hm];
    [simpl in Hd;
     repeat (destruct Hd as [<-|Hd]; [vm_compute; reflexivity|]);
     destruct Hd|]).
  destruct Hm.
Qed.

Section Year.

Variables y1 y2 y3 y4 : N.
Hypothesis H1 : is_digit y1 = true.
Hypothesis H2 : is_digit y2 = true.
Hypothesis H3 : is_digit y3 = true.
Hypothesis H4 : is_digit y4 = true.

(** A text that goes on with a hyphen after the year fails the templates
    before [%Y-%m-%d]. *)
Lemma strptime_hyphen_after_year rest fmt :
  In fmt [u "%Y年%m月%d日"; u "%Y%m%d"; u "%Y/%m/%d"] ->
  strptime (y1 :: y2 :: y3 :: y4 :: 45%N :: rest) fmt = Raise value_error.
Proof.
  intros [<-|[<-|[<-|[]]]]; unfold strptime.
  - replace (compile_format (u "%Y年%m月%d日"))
      with (Some [PDir dY; PLit 0x5E74; PDir dm; PLit 0x6708; PDir dd;
                  PLit 0x65E5]%N) by (vm_compute; reflexivity).
    now rewrite fmatch_year.
  - replace (compile_format (u "%Y%m%d"))
      with (Some [PDir dY; PDir dm; PDir dd]) by (vm_compute; reflexivity).
    now rewrite fmatch_year.
  - replace (compile_format (u "%Y/%m/%d"))
      with (Some [PDir dY; PLit 47; PDir dm; PLit 47; PDir dd]%N)
      by (vm_compute; reflexivity).
    now rewrite fmatch_year.
Qed.

Lemma strptime_year_month_day m d :
  (1 <= m <= 12)%N -> (1 <= d <= 31)%N ->
  valid_date (int_of [y1; y2; y3; y4]) m d = true ->
  strptime (y1 :: y2 :: y3 :: y4 :: 45 :: two_digits m ++ 45 :: two_digits d)%N
           (u "%Y-%m-%d")
  = Ok (mkdate (int_of [y1; y2; y3; y4]) m d).
Proof.
  intros Hm Hd Hv. unfold strptime.
  replace (compile_format (u "%Y-%m-%d"))
    with (Some [PDir dY; PLit 45; PDir dm; PLit 45; PDir dd]%N)
    by (vm_compute; reflexivity).
  rewrite fmatch_year by assumption.
  pose proof (fmatch_month_day Hm Hd) as Hf.
  destruct (fmatch _ _) as [|[g r] others]; [discriminate|].
  injection Hf as -> ->.
  cbn [map fst snd group directive_eqb].
  rewrite !int_of_two_digits by lia.
  now rewrite Hv.
Qed.

Lemma find_date_year_month_day m d :
  (1 <= m <= 12)%N -> (1 <= d <= 31)%N ->
  let s := (y1 :: y2 :: y3 :: y4 :: 45 :: two_digits m ++ 45 :: two_digits d)%N
  in find_date s = Some s.
Proof.
  intros Hm Hd s. unfold find_date, re_search.
  assert (exists others, rmatch date_pattern s = [] :: others) as (o & Ho).
  { unfold date_pattern, date_shapes. rewrite rmatch_alternation.
    cbn [flat_map].
    change (cat_all [digits 4; sep_opt; digits_1_2; sep_opt; digits_1_2])
      with (Cat (digits 4)
              (cat_all [sep_opt; digits_1_2; sep_opt; digits_1_2])).
    change (rmatch (Cat ?a ?b) s) with (flat_map (rmatch b) (rmatch a s)).
    unfold s at 1. rewrite rmatch_digits_4 by assumption.
    cbn [flat_map]. rewrite app_nil_r.
    pose proof (rmatch_month_day Hm Hd) as Hf.
    destruct (rmatch (cat_all _) (45%N :: _)) as [|r others];
      [discriminate|].
    injection Hf as ->. now eexists. }
  unfold s at 1. cbn [re_search_from]. fold s. rewrite Ho.
  pose proof (consumed_app s []) as Hc. rewrite app_nil_r in Hc.
  now rewrite Hc.
Qed.

End Year.

(** X3: a date of the calendar from the year 1000 on, written as
    [strftime('%Y-%m-%d')] writes it, has ten characters, [date_pattern]
    finds it as a whole, and [parse_date] reads the same date back. *)
Theorem normalised_date_reads_back (t : datetime) :
  valid_date (year t) (month t) (day t) = true -> (1000 <= year t)%N ->
  parse_date (strftime_ymd t) = Ok t /\
  find_date (strftime_ymd t) = Some (strftime_ymd t) /\
  length (strftime_ymd t) = 10.
Proof.
  destruct t as [y m d]. cbn [year month day]. intros Hv Hy.
  pose proof (valid_date_bounds _ _ _ Hv) as (Hy' & Hm & Hd).
  pose proof (days_in_month_bounds y m) as Hb.
  unfold strftime_ymd. cbn [year month day].
  rewrite decimal_text_year by lia.
  change (chr "-") with 45%N. cbn [app].
  set (a := (y / 1000)%N). set (b := ((y / 100) mod 10)%N).
  set (c := ((y / 10) mod 10)%N). set (e := (y mod 10)%N).
  assert (a <= 9 /\ b <= 9 /\ c <= 9 /\ e <= 9)%N as (Ha & Hb' & Hc & He)
    by (subst a b c e; div_lia).
  assert (int_of [48 + a; 48 + b; 48 + c; 48 + e]%N = y) as Hint.
  { rewrite int_of_year by assumption. subst a b c e. div_lia. }
  pose proof (is_digit_ascii Ha) as D1. pose proof (is_digit_ascii Hb') as D2.
  pose proof (is_digit_ascii Hc) as D3. pose proof (is_digit_ascii He) as D4.
  split; [|split].
  - unfold parse_date. apply parse_date_with_ok.
    exists 3, (u "%Y-%m-%d"). split; [reflexivity|]. split.
    + unfold template_date.
      rewrite strptime_year_month_day
        by first [assumption | lia | rewrite Hint; assumption].
      rewrite Hint. cbn [bind].
      replace (str_eqb (u "%Y-%m-%d") (u "%Y-%m")) with false
        by (vm_compute; reflexivity).
      reflexivity.
    + intros j other Hj Hn. unfold template_date.
      rewrite strptime_hyphen_after_year; [reflexivity|assumption..|].
      unfold date_formats in Hn.
      destruct j as [|[|[|j]]]; [| | |lia]; cbn [nth_error] in Hn;
        injection Hn as <-; cbn [In]; tauto.
  - apply find_date_year_month_day; first [assumption | lia].
  - reflexivity.
Qed.

Lemma normalised_date_reads_back_witness :
  parse_date (u "2024-02-29") = Ok (mkdate 2024 2 29) /\
  find_date (u "2024-02-29") = Some (u "2024-02-29") /\
  length (u "2024-02-29") = 10.
Proof.
  apply (@normalised_date_reads_back (mkdate 2024 2 29));
    vm_compute; [reflexivity|discriminate].
Defined.

(** ** Extraction, in general *)

Lemma has_chinese_false t :
  has_chinese t = false -> forall c, In c t -> ~ is_chinese c.
Proof.
  unfold has_chinese.
  destruct (re_search chinese_pattern t) as [[[pre m] post]|] eqn:Hs;
    [discriminate|].
  intros _ c Hin Hc. apply in_split in Hin as (l1 & l2 & ->).
  eapply re_search_none with (pre := l1) (w := [c]) (post := l2);
    [exact Hs| |reflexivity].
  now exists c.
Qed.

Lemma date_near_nearest chain date_str :
  date_near chain = Some date_str <-> nearest_date chain date_str.
Proof.
  unfold nearest_date. induction chain as [|element parents IH]; simpl.
  - split; [discriminate|]. intros ([|k] & e & H & _); discriminate.
  - destruct (find_date (get_text element)) as [s|] eqn:Hf.
    + split.
      * intros [= ->]. exists 0, element. repeat split; try assumption.
        intros j other Hj. lia.
      * intros ([|k] & e & Hk & He & Hbefore); simpl in Hk.
        -- injection Hk as <-. congruence.
        -- specialize (Hbefore 0 element (Nat.lt_0_succ k) eq_refl).
           congruence.
    + rewrite IH. split.
      * intros (k & e & Hk & He & Hbefore).
        exists (S k), e. repeat split; try assumption.
        intros [|j] other Hj; simpl.
        -- now intros [= <-].
        -- apply Hbefore. lia.
      * intros ([|k] & e & Hk & He & Hbefore); simpl in Hk.
        -- injection Hk as <-. congruence.
        -- exists k, e. repeat split; try assumption.
           intros j other Hj Hother. apply (Hbefore (S j)); [lia|assumption].
Qed.

(** One turn of the loop appends the record of the link when it has one,
    and leaves the list as it is when it has none. *)
Lemma extract_link_record rt base_url link parents news_list out :
  extract_link rt base_url link parents news_list = Ok out ->
  (exists n, record_of rt base_url (link, parents) n /\
             out = news_list ++ [n]) \/
  ((forall n, ~ record_of rt base_url (link, parents) n) /\ out = news_list).
Proof.
  unfold extract_link, bind, record_of. cbn [fst snd].
  destruct (negb (nonempty _) || _) eqn:Hlen.
  { intros [= <-]. right. split; [|reflexivity].
    intros n (Ht & (Hl & _) & _). rewrite Ht in Hl.
    apply orb_true_iff in Hlen as [Hlen|Hlen].
    - destruct (link_title rt link); [simpl in Hl; lia|discriminate].
    - apply Nat.ltb_lt in Hlen. lia. }
  destruct (negb (has_chinese _)) eqn:Hch.
  { intros [= <-]. right. split; [|reflexivity].
    intros n (Ht & (_ & c & Hin & Hc) & _). rewrite Ht in Hin.
    apply negb_true_iff in Hch.
    exact (has_chinese_false _ Hch Hin Hc). }
  destruct (urljoin _ _ _) as [joined|e] eqn:Hu; [|discriminate].
  destruct (date_near _) as [date_str|] eqn:Hd.
  2:{ intros [= <-]. right. split; [|reflexivity].
      intros n (_ & _ & _ & _ & s & d & Hs & _).
      apply date_near_nearest in Hs. congruence. }
  destruct (nonempty joined) eqn:Hne.
  2:{ intros [= <-]. right. split; [|reflexivity].
      intros n (_ & _ & [= <-] & Hn & _).
      destruct joined; [congruence|discriminate]. }
  destruct (parse_date date_str) as [d|e] eqn:Hp.
  - intros [= <-]. left. eexists. split; [|reflexivity]. cbn [title url date].
    split; [reflexivity|]. split.
    { split.
      - apply orb_false_iff in Hlen as [_ Hlen].
        now apply Nat.ltb_ge in Hlen.
      - apply has_chinese_true. now apply negb_false_iff in Hch. }
    split; [reflexivity|]. split; [now destruct joined|].
    exists date_str, d. split; [now apply date_near_nearest|]. now split.
  - destruct (catches _ e); [|discriminate].
    intros [= <-]. right. split; [|reflexivity].
    intros n (_ & _ & _ & _ & s & d & Hs & Hparse & _).
    apply date_near_nearest in Hs. congruence.
Qed.

Lemma record_of_unique rt base_url lp n n' :
  record_of rt base_url lp n -> record_of rt base_url lp n' -> n = n'.
Proof.
  intros (Ht & _ & Hu & _ & s & d & Hs & Hp & Hd)
         (Ht' & _ & Hu' & _ & s' & d' & Hs' & Hp' & Hd').
  apply date_near_nearest in Hs, Hs'.
  assert (s' = s) as -> by congruence.
  assert (d' = d) as -> by congruence.
  destruct n, n'; simpl in *. congruence.
Qed.

Lemma extract_links_records rt base_url links news_list out :
  extract_links rt base_url links news_list = Ok out ->
  exists kept added,
    out = news_list ++ added /\ subseq kept links /\
    Forall2 (record_of rt base_url) kept added /\
    forall lp n, In lp links -> record_of rt base_url lp n -> In n added.
Proof.
  revert news_list. induction links as [|[link parents] rest IH];
    intros news_list; simpl.
  - intros [= <-]. exists [], []. rewrite app_nil_r.
    split; [reflexivity|]. split; [constructor|]. split; [constructor|].
    intros lp n [].
  - unfold bind.
    destruct (extract_link _ _ _ _ _) as [mid|e] eqn:Hl; [|discriminate].
    intros H. apply IH in H as (kept & added & -> & Hsub & Hall & Hin).
    apply extract_link_record in Hl as [(n & Hn & ->)|[Hnone ->]].
    + exists ((link, parents) :: kept), (n :: added).
      rewrite <- app_assoc.
      split; [reflexivity|]. split; [now constructor|].
      split; [now constructor|].
      intros lp n' [<-|Hlp] Hn'.
      * left. eapply record_of_unique; [exact Hn|exact Hn'].
      * right. now apply (Hin lp).
    + exists kept, added.
      split; [reflexivity|]. split; [now constructor|].
      split; [assumption|].
      intros lp n' [<-|Hlp] Hn'; [now apply Hnone in Hn'|now apply (Hin lp)].
Qed.

Lemma subseq_length (A : Type) (l1 l2 : list A) :
  subseq l1 l2 -> length l1 <= length l2.
Proof. induction 1; simpl; lia. Qed.

(** X4: the records [extract_news] returns are the records of some of
    the links [<a href>] of the page, in document order and one per link
    at most: each record has the title of its link, which passed the two
    filters, the [href] joined to the base, not empty, and the date found
    in the nearest element (the link, its parent, and so on) whose text
    holds one, parsed and written as year-month-day.  There are no more
    records than links. *)
Theorem extract_news_records_of_links rt html_content base_url news_list :
  extract_news rt html_content base_url = Ok news_list ->
  exists soup kept,
    html_parser rt html_content = Ok soup /\
    subseq kept (find_all_a_href soup) /\
    Forall2 (record_of rt base_url) kept news_list /\
    length news_list <= length (find_all_a_href soup).
Proof.
  unfold extract_news, bind.
  destruct (html_parser rt html_content) as [soup|e]; [|discriminate].
  intros H. apply extract_links_records in H as (kept & added & -> & Hs & Hall & _).
  exists soup, kept. cbn [app].
  split; [reflexivity|]. split; [assumption|]. split; [assumption|].
  rewrite <- (Forall2_length Hall). now apply subseq_length.
Qed.

Lemma extract_news_records_of_links_witness :
  exists soup kept,
    html_parser sample_runtime bad_date_html = Ok soup /\
    subseq kept (find_all_a_href soup) /\
    Forall2 (record_of sample_runtime shu_base) kept [shu_news] /\
    length [shu_news] <= length (find_all_a_href soup).
Proof.
  apply (@extract_news_records_of_links sample_runtime bad_date_html shu_base).
  vm_compute. reflexivity.
Defined.

(** Every record comes from a link of the page. *)
Lemma extract_news_record_of_each rt html_content base_url news_list n :
  extract_news rt html_content base_url = Ok news_list -> In n news_list ->
  exists soup lp,
    html_parser rt html_content = Ok soup /\
    In lp (find_all_a_href soup) /\ record_of rt base_url lp n.
Proof.
  unfold extract_news, bind.
  destruct (html_parser rt html_content) as [soup|e]; [|discriminate].
  intros H. apply extract_links_records in H
    as (kept & added & -> & Hsub & Hall & _).
  cbn [app]. intros Hn. exists soup.
  revert Hsub. generalize (find_all_a_href soup). intros links Hsub.
  assert (exists lp, In lp kept /\ record_of rt base_url lp n) as (lp & Hk & Hr).
  { clear Hsub. induction Hall as [|lp x kept added Hx _ IH];
      [destruct Hn|].
    destruct Hn as [<-|Hn]; [exists lp; split; [now left|assumption]|].
    destruct (IH Hn) as (lp' & Hin & Hr). exists lp'. split; [now right|assumption]. }
  exists lp. split; [reflexivity|]. split; [|assumption].
  clear - Hsub Hk. induction Hsub; simpl in *; [tauto| |].
  - right. now apply IHHsub.
  - destruct Hk as [<-|Hk]; [now left|right; now apply IHHsub].
Qed.

(** X5: no link is lost: when [extract_news] returns, the record of
    every link of the page that has one is in the list. *)
Theorem extract_news_keeps_every_record rt html_content base_url soup
  news_list lp n :
  html_parser rt html_content = Ok soup ->
  extract_news rt html_content base_url = Ok news_list ->
  In lp (find_all_a_href soup) -> record_of rt base_url lp n ->
  In n news_list.
Proof.
  unfold extract_news, bind. intros ->.
  intros H. apply extract_links_records in H as (kept & added & -> & _ & _ & Hin).
  intros Hlp Hn. now apply (Hin lp).
Qed.

Lemma extract_news_keeps_every_record_witness :
  In (shu_link, [shu_span; shu_page]) (find_all_a_href shu_page) /\
  record_of sample_runtime shu_base (shu_link, [shu_span; shu_page]) shu_news /\
  In shu_news [shu_news].
Proof.
  assert (record_of sample_runtime shu_base (shu_link, [shu_span; shu_page])
            shu_news) as Hrec.
  { destruct (@extract_link_record sample_runtime shu_base shu_link
                [shu_span; shu_page] [] [shu_news])
      as [(n & Hn & Hout)|[_ Hout]];
      [vm_compute; reflexivity| |discriminate].
    injection Hout as <-. exact Hn. }
  split; [vm_compute; now left|]. split; [exact Hrec|].
  apply (@extract_news_keeps_every_record sample_runtime shu_html shu_base
           shu_page [shu_news] (shu_link, [shu_span; shu_page]) shu_news);
    [vm_compute; reflexivity|vm_compute; reflexivity|vm_compute; now left|
     exact Hrec].
Defined.

(** ** Pages without a date *)











(** ** Where [urljoin] cannot fail *)

Lemma plain_incl a b : incl a b -> plain b = true -> plain a = true.
Proof.
  unfold plain. rewrite !forallb_forall. intros Hi H c Hc. apply H, Hi, Hc.
Qed.

Lemma plain_netloc s :
  plain s = true ->
  mem_chr (chr "[") s = false /\ mem_chr (chr "]") s = false /\
  forallb is_ascii s = true.
Proof.
  unfold plain, mem_chr. induction s as [|c s IH]; cbn [forallb existsb];
    [tauto|].
  rewrite !andb_true_iff, !negb_true_iff. intros [[[Ha Ho] Hc] Hs].
  destruct (IH Hs) as (-> & -> & ->). rewrite Ha.
  rewrite N.eqb_sym in Ho. rewrite N.eqb_sym in Hc.
  now rewrite Ho, Hc.
Qed.

Lemma lstrip_by_incl p s : incl (lstrip_by p s) s.
Proof.
  induction s as [|c s IH]; simpl; [apply incl_refl|].
  destruct (p c); [now apply incl_tl|apply incl_refl].
Qed.

Lemma split_first_incl c s a b :
  split_first c s = Some (a, b) -> incl a s /\ incl b s.
Proof.
  revert a b. induction s as [|x s IH]; intros a b; simpl; [discriminate|].
  destruct (x =? c)%N.
  - intros [= <- <-]. split; [intros y []|now apply incl_tl, incl_refl].
  - destruct (split_first c s) as [[a' b']|]; [|discriminate].
    intros [= <- <-]. destruct (IH _ _ eq_refl) as [Ha Hb]. split.
    + intros y [<-|Hy]; [now left|right; now apply Ha].
    + now apply incl_tl.
Qed.

Lemma skipn_incl (A : Type) n (s : list A) : incl (skipn n s) s.
Proof.
  revert s. induction n as [|n IH]; intros [|x s]; simpl;
    try apply incl_refl.
  now apply incl_tl.
Qed.

Lemma splitnetloc_incl s : incl (fst (splitnetloc s)) s.
Proof.
  induction s as [|x s IH]; simpl; [apply incl_refl|].
  destruct (_ || _); [intros y []|].
  destruct (splitnetloc s) as [a b]. simpl in *.
  intros y [<-|Hy]; [now left|right; now apply IH].
Qed.

Lemma urlsplit_plain rt url scheme :
  plain url = true -> exists sp, urlsplit rt url scheme = Ok sp.
Proof.
  intros Hp. unfold urlsplit.
  set (url1 := filter _ (lstrip_by c0_or_space url)).
  assert (incl url1 url) as H1.
  { eapply incl_tran; [apply incl_filter|apply lstrip_by_incl]. }
  match goal with
  | |- context [let (_, _) := ?X in _] => destruct X as [sch url2] eqn:Hs
  end.
  assert (incl url2 url1) as H2.
  { destruct (split_first (chr ":") url1) as [[[|c pre] post]|] eqn:Hf;
      try (injection Hs as <- <-; apply incl_refl).
    destruct (_ && _); injection Hs as <- <-; [|apply incl_refl].
    now apply split_first_incl in Hf. }
  match goal with
  | |- context [let (_, _) := ?X in _] => destruct X as [nl url3] eqn:Hn
  end.
  assert (incl nl url2) as H3.
  { destruct (startswith (u "//") url2).
    - pose proof (splitnetloc_incl (skipn 2 url2)) as Hi.
      rewrite Hn in Hi. cbn [fst] in Hi.
      eapply incl_tran; [exact Hi|apply skipn_incl].
    - injection Hn as <- <-. intros y []. }
  assert (plain nl = true) as Hnl.
  { eapply plain_incl; [|exact Hp].
    eapply incl_tran; [exact H3|]. eapply incl_tran; [exact H2|exact H1]. }
  apply plain_netloc in Hnl as (-> & -> & ->). cbn [xorb andb negb].
  destruct (split_first (chr "#") url3) as [[? ?]|];
    destruct (split_first (chr "?") _) as [[? ?]|];
    rewrite andb_false_r; cbn [andb]; eexists; reflexivity.
Qed.

Lemma urlparse_plain rt url scheme :
  plain url = true -> exists p, urlparse rt url scheme = Ok p.
Proof.
  intros Hp. unfold urlparse, bind.
  destruct (@urlsplit_plain rt url scheme Hp) as (sp & ->).
  destruct (_ && _); [destruct (splitparams _)|]; eexists; reflexivity.
Qed.

Lemma urljoin_plain rt base url :
  plain base = true -> plain url = true ->
  exists joined, urljoin rt base url = Ok joined.
Proof.
  intros Hb Hu. unfold urljoin, bind.
  destruct (negb (nonempty base)); [now eexists|].
  destruct (negb (nonempty url)); [now eexists|].
  destruct (@urlparse_plain rt base [] Hb) as (b & ->).
  destruct (@urlparse_plain rt url (scheme b) Hu) as (r & ->).
  destruct (_ || _); [now eexists|].
  destruct (_ && _); [now eexists|].
  destruct (_ && _); now eexists.
Qed.

(** X9: on a page that the parser accepts [extract_news] returns a list
    when the base and the [href] of every link are ASCII without a square
    bracket: [urljoin] raises on nothing else. *)
Theorem extract_news_total_on_plain_hrefs rt html_content base_url soup :
  html_parser rt html_content = Ok soup ->
  plain base_url = true ->
  (forall link parents, In (link, parents) (find_all_a_href soup) ->
     plain (link_href link) = true) ->
  exists news_list, extract_news rt html_content base_url = Ok news_list.
Proof.
  intros Hsoup Hb Hlinks. unfold extract_news, bind. rewrite Hsoup.
  destruct (extract_links rt base_url (find_all_a_href soup) [])
    as [news_list|e] eqn:He; [now exists news_list|].
  apply extract_links_raise in He as (link & parents & Hin & Hraise).
  destruct (@urljoin_plain rt base_url (link_href link) Hb
              (Hlinks _ _ Hin)) as (joined & Hj).
  congruence.
Qed.

Lemma extract_news_total_on_plain_hrefs_witness :
  exists news_list, extract_news sample_runtime shu_html shu_base = Ok news_list.
Proof.
  apply (@extract_news_total_on_plain_hrefs sample_runtime shu_html shu_base
           shu_page); [vm_compute; reflexivity|vm_compute; reflexivity|].
  intros link parents Hin. vm_compute in Hin.
  destruct Hin as [[= <- <-]|[]]. vm_compute. reflexivity.
Defined.

(** ** Storage, in general *)

Lemma str_eqb_refl a : str_eqb a a = true.
Proof. now apply str_eqb_eq. Qed.

Lemma str_eqb_sym a b : str_eqb a b = str_eqb b a.
Proof.
  destruct (str_eqb a b) eqn:H1, (str_eqb b a) eqn:H2; try reflexivity.
  - apply str_eqb_eq in H1 as ->. now rewrite str_eqb_refl in H2.
  - apply str_eqb_eq in H2 as ->. now rewrite str_eqb_refl in H1.
Qed.

Lemma title_taken_more db t added r :
  title_taken db t r = true -> title_taken db (t ++ added) r = true.
Proof. unfold title_taken. rewrite existsb_app. now intros ->. Qed.

Lemma title_taken_self db t r : title_taken db (t ++ [r]) r = true.
Proof.
  unfold title_taken. rewrite existsb_app. cbn [existsb].
  now rewrite str_eqb_refl, orb_true_r.
Qed.

Lemma unique_titles_snoc db t r :
  unique_titles db t = true -> title_taken db t r = false ->
  unique_titles db (t ++ [r]) = true.
Proof.
  induction t as [|x t IH]; cbn [unique_titles app]; [reflexivity|].
  rewrite andb_true_iff, negb_true_iff. intros [Hx Ht] Hr.
  unfold title_taken in Hr. cbn [existsb] in Hr.
  apply orb_false_iff in Hr as [Hxr Hr].
  rewrite IH by assumption. rewrite andb_true_r, negb_true_iff.
  unfold title_taken in *. rewrite existsb_app, Hx. cbn [existsb].
  now rewrite str_eqb_sym, Hxr.
Qed.

(** One turn of the loop of [insert_news_data]: the item is passed over,
    or its row is appended, or the loop ends with an error. *)
Lemma insert_loop_step rt db net item rest n t :
  insert_loop rt db net (item :: rest) n t
  = insert_loop rt db net rest n t \/
  (check_url_availability net (item_url item) default_timeout = Ok true /\
   statement_error db t (row_of rt item) = None /\
   title_taken db t (row_of rt item) = false /\
   insert_loop rt db net (item :: rest) n t
   = insert_loop rt db net rest (n + 1)%Z (t ++ [row_of rt item])) \/
  (exists e, insert_loop rt db net (item :: rest) n t = Raise e).
Proof.
  cbn [insert_loop]. unfold bind, execute_insert.
  destruct (check_url_availability _ _ _) as [[|]|e];
    [| |right; right; now exists e]; cbn [negb]; [|now left].
  destruct (statement_error db t (row_of rt item)) as [e|].
  - destruct (catches [IntegrityError] e); [|right; right; now exists e].
    destruct (exn_code e =? 1062)%Z; [now left|right; right; now exists e].
  - destruct (title_taken db t (row_of rt item)); [now left|].
    right. left. repeat split.
Qed.

(** A property of the table that appending a row with a new title keeps
    is kept by the loop. *)
Lemma insert_loop_keeps (P : table -> Prop) rt db net data n t n' t' :
  (forall t r, P t -> title_taken db t r = false -> P (t ++ [r])) ->
  P t -> insert_loop rt db net data n t = Ok (n', t') -> P t'.
Proof.
  intros Hstep. revert n t. induction data as [|item rest IH]; intros n t Ht.
  - cbn [insert_loop]. now intros [= _ <-].
  - destruct (insert_loop_step rt db net item rest n t)
      as [->|[(_ & _ & Hnew & ->)|(e & ->)]]; [| |discriminate].
    + now apply IH.
    + apply IH. now apply Hstep.
Qed.

Lemma insert_news_data_keeps (P : table -> Prop) rt db net stored data n t :
  (forall t r, P t -> title_taken db t r = false -> P (t ++ [r])) ->
  P stored -> insert_news_data rt db net stored data = Ok (n, t) -> P t.
Proof.
  intros Hstep Hs. unfold insert_news_data, bind.
  destruct (connect_error db) as [e|].
  { rewrite everything_is_an_exception. now intros [= _ <-]. }
  destruct (insert_loop rt db net data 0 stored) as [[n1 t1]|e] eqn:Hloop.
  - destruct (commit_error db) as [e|].
    { rewrite everything_is_an_exception. now intros [= _ <-]. }
    intros [= _ <-]. eapply insert_loop_keeps; eassumption.
  - rewrite everything_is_an_exception. now intros [= _ <-].
Qed.

(** X12: [insert_news_data] keeps the titles unique: when no two stored
    rows have the same title under the collation of the server, no two
    rows have afterwards. *)
Theorem insert_news_data_keeps_titles_unique rt db net stored data n t :
  unique_titles db stored = true ->
  insert_news_data rt db net stored data = Ok (n, t) ->
  unique_titles db t = true.
Proof.
  intros Hs H.
  apply (@insert_news_data_keeps (fun t => unique_titles db t = true)
           rt db net stored data n t); try assumption.
  intros t0 r. apply unique_titles_snoc.
Qed.

Lemma insert_news_data_keeps_titles_unique_witness :
  unique_titles quiet_mysql
    [row_of sample_runtime (formatted (u "复旦大学") twice_first)] = true.
Proof.
  apply (@insert_news_data_keeps_titles_unique sample_runtime quiet_mysql
           open_network []
           (map (formatted (u "复旦大学")) [twice_first; twice_second]) 1%Z);
    vm_compute; reflexivity.
Defined.

(** After the loop has ended normally every item of the batch has an
    unreachable link or a title that is in the table. *)
Lemma insert_loop_settles rt db net data n t n' t' :
  (forall t r e, statement_error db t r = Some e -> passed_over e = false) ->
  insert_loop rt db net data n t = Ok (n', t') ->
  forall item, In item data ->
    check_url_availability net (item_url item) default_timeout = Ok false \/
    (check_url_availability net (item_url item) default_timeout = Ok true /\
     title_taken db t' (row_of rt item) = true).
Proof.
  intros Hst. revert n t. induction data as [|item rest IH]; intros n t;
    [intros _ ? []|].
  intros H it [<-|Hin]; [|revert H].
  - revert H. cbn [insert_loop]. unfold bind, execute_insert.
    destruct (check_url_availability _ _ _) as [[|]|e];
      [| |discriminate]; cbn [negb]; [|now left].
    intros H. right. split; [reflexivity|].
    destruct (statement_error db t (row_of rt item)) as [e|] eqn:He.
    + apply Hst in He. unfold passed_over in He.
      destruct (catches [IntegrityError] e); [|discriminate].
      cbn [andb] in He. rewrite He in H. discriminate.
    + destruct (title_taken db t (row_of rt item)) eqn:Htaken.
      * change (catches [IntegrityError] duplicate_entry) with true in H.
        change (exn_code duplicate_entry =? 1062)%Z with true in H.
        cbv iota in H.
        apply insert_loop_appends in H as (added & -> & _).
        now apply title_taken_more.
      * apply insert_loop_appends in H as (added & -> & _).
        apply title_taken_more, title_taken_self.
  - destruct (insert_loop_step rt db net item rest n t)
      as [->|[(_ & _ & _ & ->)|(e & ->)]]; [| |discriminate];
      intros H; eapply IH; eassumption.
Qed.

(** On a batch whose items all have an unreachable link or a title that
    is in the table the loop inserts nothing. *)
Lemma insert_loop_nothing_new rt db net data n t :
  (forall item, In item data ->
     check_url_availability net (item_url item) default_timeout = Ok false \/
     (check_url_availability net (item_url item) default_timeout = Ok true /\
      title_taken db t (row_of rt item) = true)) ->
  insert_loop rt db net data n t = Ok (n, t) \/
  exists e, insert_loop rt db net data n t = Raise e.
Proof.
  induction data as [|item rest IH]; intros H; [now left|].
  destruct (insert_loop_step rt db net item rest n t)
    as [->|[(Hc & _ & Hnew & _)|(e & ->)]].
  - apply IH. intros it Hit. apply H. now right.
  - destruct (H item (or_introl eq_refl)) as [Hf|[_ Ht]]; congruence.
  - right. now exists e.
Qed.

(** X13: inserting a batch a second time adds nothing: on a server whose
    [INSERT] fails with the duplicate-key error for a taken title only,
    [insert_news_data] on the table it left and the same batch returns 0
    and leaves the table as it is. *)
Theorem insert_news_data_again_adds_nothing rt db net stored data n t :
  (forall t r e, statement_error db t r = Some e -> passed_over e = false) ->
  insert_news_data rt db net stored data = Ok (n, t) ->
  insert_news_data rt db net t data = Ok (0%Z, t).
Proof.
  intros Hst. unfold insert_news_data, bind.
  destruct (connect_error db) as [e|].
  { rewrite everything_is_an_exception. now intros [= _ <-]. }
  destruct (insert_loop rt db net data 0 stored) as [[n1 t1]|e] eqn:Hloop.
  - destruct (commit_error db) as [e|] eqn:Hcommit.
    { rewrite everything_is_an_exception. intros [= _ <-].
      now rewrite Hloop, everything_is_an_exception. }
    intros [= _ <-].
    destruct (@insert_loop_nothing_new rt db net data 0%Z t1) as [->|(e & ->)].
    + eapply insert_loop_settles; eassumption.
    + reflexivity.
    + now rewrite everything_is_an_exception.
  - rewrite everything_is_an_exception. intros [= _ <-].
    now rewrite Hloop, everything_is_an_exception.
Qed.

Lemma insert_news_data_again_adds_nothing_witness :
  insert_news_data sample_runtime quiet_mysql open_network
    [row_of sample_runtime (formatted (u "复旦大学") twice_first)]
    (map (formatted (u "复旦大学")) [twice_first; twice_second])
  = Ok (0%Z, [row_of sample_runtime (formatted (u "复旦大学") twice_first)]).
Proof.
  apply (@insert_news_data_again_adds_nothing sample_runtime quiet_mysql
           open_network [] _ 1%Z).
  - intros t r e. discriminate.
  - vm_compute. reflexivity.
Defined.

Lemma insert_loop_app rt db net before after n t :
  insert_loop rt db net (before ++ after) n t
  = (done <- insert_loop rt db net before n t ;;
     insert_loop rt db net after (fst done) (snd done)).
Proof.
  revert n t. induction before as [|item rest IH]; intros n t; [reflexivity|].
  rewrite <- app_comm_cons. cbn [insert_loop]. unfold execute_insert.
  destruct (check_url_availability _ _ _) as [[|]|e]; cbn [negb bind];
    [| |reflexivity]; [|apply IH].
  destruct (statement_error db t (row_of rt item)) as [e|].
  - destruct (catches [IntegrityError] e); [|reflexivity].
    destruct (exn_code e =? 1062)%Z; [apply IH|reflexivity].
  - destruct (title_taken db t (row_of rt item)); [|apply IH].
    change (catches [IntegrityError] duplicate_entry) with true.
    change (exn_code duplicate_entry =? 1062)%Z with true. cbv iota.
    apply IH.
Qed.

(** X14: an [INSERT] that fails with another error than the duplicate
    key discards the whole batch: the rows inserted before it are rolled
    back, the items after it are not tried, and [insert_news_data]
    returns 0 with the table as it was. *)
Theorem failed_insert_discards_the_batch rt db net stored before item after
  k t e :
  insert_loop rt db net before 0%Z stored = Ok (k, t) ->
  check_url_availability net (item_url item) default_timeout = Ok true ->
  statement_error db t (row_of rt item) = Some e ->
  passed_over e = false ->
  insert_news_data rt db net stored (before ++ item :: after)
  = Ok (0%Z, stored).
Proof.
  intros Hbefore Hc Hs He. unfold insert_news_data.
  destruct (connect_error db) as [e'|];
    [now rewrite everything_is_an_exception|].
  rewrite insert_loop_app, Hbefore. cbn [bind fst snd insert_loop].
  rewrite Hc. cbn [bind negb]. unfold execute_insert. rewrite Hs.
  unfold passed_over in He.
  destruct (catches [IntegrityError] e); cbn [andb] in He;
    [rewrite He|]; cbn [bind]; now rewrite everything_is_an_exception.
Qed.

Lemma failed_insert_discards_the_batch_witness :
  insert_news_data sample_runtime strict_mysql patchy_network []
    ([shu_item "上海大学举办学术讲座通知" "https://news.shu.edu.cn/news/3.htm"]
     ++ long_item :: [])
  = Ok (0%Z, []).
Proof.
  apply (@failed_insert_discards_the_batch sample_runtime strict_mysql
           patchy_network []
           [shu_item "上海大学举办学术讲座通知" "https://news.shu.edu.cn/news/3.htm"]
           long_item [] 1%Z
           [row_of sample_runtime
              (shu_item "上海大学举办学术讲座通知" "https://news.shu.edu.cn/news/3.htm")]
           (Exn DataError 1406)); vm_compute; reflexivity.
Defined.

(** ** Cleaning *)

Lemma with_ids_fst_from s (t : table) :
  map fst (combine (seq s (length t)) t) = seq s (length t).
Proof.
  revert s. induction t as [|r t IH]; intros s; [reflexivity|].
  cbn [length seq combine map fst]. now rewrite IH.
Qed.

Lemma with_ids_snd_from s (t : table) :
  map snd (combine (seq s (length t)) t) = t.
Proof.
  revert s. induction t as [|r t IH]; intros s; [reflexivity|].
  cbn [length seq combine map snd]. now rewrite IH.
Qed.

Lemma with_ids_NoDup t : NoDup (map fst (with_ids t)).
Proof. unfold with_ids. rewrite with_ids_fst_from. apply seq_NoDup. Qed.

(** Deleting by a key that no row has changes nothing. *)
Lemma delete_absent_id record_id (t : list (nat * row)) :
  ~ In record_id (map fst t) ->
  filter (fun r => negb (fst r =? record_id)) t = t.
Proof.
  induction t as [|[i r] t IH]; cbn [map fst filter In]; [reflexivity|].
  intros H. destruct (Nat.eqb_spec i record_id) as [->|Hne]; cbn [negb].
  - exfalso. apply H. now left.
  - rewrite IH; [reflexivity|]. intros Hin. apply H. now right.
Qed.

(** Deleting by the key of a row takes out that row and no other. *)
Lemma delete_by_id record_id r (before after : list (nat * row)) :
  NoDup (map fst (before ++ (record_id, r) :: after)) ->
  filter (fun r => negb (fst r =? record_id)) (before ++ (record_id, r) :: after)
  = before ++ after.
Proof.
  rewrite map_app. cbn [map fst]. intros H.
  pose proof (NoDup_remove_2 _ _ _ H) as Hnot.
  rewrite filter_app. cbn [filter fst]. rewrite Nat.eqb_refl. cbn [negb].
  rewrite !delete_absent_id; [reflexivity| |];
    intros Hin; apply Hnot, in_or_app; tauto.
Qed.

Lemma filter_length_le (A : Type) (f : A -> bool) l :
  length (filter f l) <= length l.
Proof.
  induction l as [|x l IH]; simpl; [lia|]. destruct (f x); simpl; lia.
Qed.

(** What the loop has done when it ends normally: the rows still to visit
    whose link is not reachable are gone, one per count, and no other. *)
Lemma clean_loop_removes faults net kept records n n' t' :
  NoDup (map fst (kept ++ records)) ->
  clean_loop faults net (select_id_link records) n (kept ++ records)
  = Ok (n', t') ->
  t' = kept ++ filter (fun r => reachable net (snd r)) records /\
  n' = (n + Z.of_nat (length records
                      - length (filter (fun r => reachable net (snd r))
                                  records)))%Z.
Proof.
  revert kept n. induction records as [|[record_id r] rest IH];
    intros kept n Hids; cbn [select_id_link map clean_loop fst snd].
  - intros [= <- <-]. split; [reflexivity|]. simpl. lia.
  - unfold bind, execute_delete. cbn [filter snd].
    pose proof (filter_length_le
                  (fun r0 : nat * row => reachable net (snd r0)) rest) as Hle.
    destruct (check_url_availability _ _ _) as [[|]|e] eqn:Hc;
      [| |discriminate]; cbn [negb].
    + assert (reachable net r = true) as ->
        by (unfold reachable; now rewrite Hc).
      change (kept ++ (record_id, r) :: rest)
        with (kept ++ [(record_id, r)] ++ rest).
      rewrite app_assoc. intros H. apply IH in H as [-> ->].
      * rewrite <- app_assoc. split; [reflexivity|]. cbn [length]. lia.
      * now rewrite <- app_assoc.
    + assert (reachable net r = false) as ->
        by (unfold reachable; now rewrite Hc).
      destruct (delete_error faults record_id); [discriminate|].
      rewrite delete_by_id by assumption.
      intros H. apply IH in H as [-> ->].
      * split; [reflexivity|]. cbn [length]. lia.
      * rewrite map_app in *. cbn [map] in Hids.
        now apply NoDup_remove_1 in Hids.
Qed.

(** Without a failure of a probe or of a [DELETE] the loop ends
    normally. *)
Lemma clean_loop_ends faults net records n t :
  (forall record_id, delete_error faults record_id = None) ->
  (forall r, In r records ->
     is_ok (check_url_availability net (link (snd r)) default_timeout)
     = true) ->
  exists done, clean_loop faults net (select_id_link records) n t = Ok done.
Proof.
  intros Hdel. revert n t. induction records as [|[record_id r] rest IH];
    intros n t Hprobe; cbn [select_id_link map clean_loop fst snd].
  - now eexists.
  - pose proof (Hprobe (record_id, r) (or_introl eq_refl)) as Hp.
    cbn [snd] in Hp. unfold bind, execute_delete.
    destruct (check_url_availability _ _ _) as [[|]|e];
      [| |discriminate]; cbn [negb].
    + apply IH. intros r0 Hin. apply Hprobe. now right.
    + rewrite Hdel. apply IH. intros r0 Hin. apply Hprobe. now right.
Qed.

Lemma filter_snd (f : row -> bool) (t : list (nat * row)) :
  map snd (filter (fun r => f (snd r)) t) = filter f (map snd t).
Proof.
  induction t as [|[i r] t IH]; cbn [filter map snd]; [reflexivity|].
  destruct (f r); cbn [map snd]; now rewrite IH.
Qed.

(** The two ways [clean_invalid_links] ends: nothing is removed and the
    count is 0, or the transaction is committed. *)
Lemma clean_invalid_links_cases db faults net stored :
  exists n t,
    clean_invalid_links db faults net stored = Ok (n, t) /\
    (n = 0%Z /\ t = stored \/
     n = Z.of_nat (length stored - length t) /\
     t = filter (reachable net) stored /\
     connect_error db = None /\ select_error faults = None /\
     commit_error db = None).
Proof.
  unfold clean_invalid_links.
  destruct (connect_error db) as [e|].
  { rewrite everything_is_an_exception. exists 0%Z, stored. tauto. }
  destruct (select_error faults) as [e|].
  { rewrite everything_is_an_exception. exists 0%Z, stored. tauto. }
  unfold bind.
  destruct (clean_loop _ _ _ _ _) as [[n t]|e] eqn:Hloop.
  2:{ rewrite everything_is_an_exception. exists 0%Z, stored. tauto. }
  destruct (commit_error db) as [e|].
  { rewrite everything_is_an_exception. exists 0%Z, stored. tauto. }
  exists n, (map snd t). split; [reflexivity|]. right.
  apply (@clean_loop_removes faults net [] (with_ids stored)) in Hloop
    as [-> ->]; [|apply with_ids_NoDup].
  cbn [app]. rewrite length_map.
  assert (length (with_ids stored) = length stored) as ->
    by (unfold with_ids; rewrite length_combine, length_seq; lia).
  split; [lia|]. rewrite filter_snd. unfold with_ids.
  rewrite with_ids_snd_from. repeat split.
Qed.

(** X16: [clean_invalid_links] does not raise and returns the number of
    rows it removed.  It leaves the rows whose link the probe finds
    reachable, in their order, or, when the connection, a statement, a
    probe or the commit fails, it removes nothing and returns 0; without
    such a failure it leaves exactly the reachable rows. *)
Theorem clean_invalid_links_removes_unreachable db faults net stored :
  exists n t,
    clean_invalid_links db faults net stored = Ok (n, t) /\
    n = Z.of_nat (length stored - length t) /\
    (t = filter (reachable net) stored \/ t = stored) /\
    (connect_error db = None -> select_error faults = None ->
     commit_error db = None ->
     (forall record_id, delete_error faults record_id = None) ->
     (forall r, In r stored ->
        is_ok (check_url_availability net (link r) default_timeout) = true) ->
     t = filter (reachable net) stored).
Proof.
  destruct (clean_invalid_links_cases db faults net stored)
    as (n & t & Hrun & Hcases).
  exists n, t. split; [exact Hrun|].
  split; [|split].
  - destruct Hcases as [[-> ->]|[-> _]]; [lia|reflexivity].
  - destruct Hcases as [[_ ->]|(_ & -> & _)]; tauto.
  - intros Hconnect Hselect Hcommit Hdelete Hprobe.
    destruct Hcases as [[_ ->]|(_ & -> & _)]; [|reflexivity].
    revert Hrun. unfold clean_invalid_links.
    rewrite Hconnect, Hselect, Hcommit. unfold bind.
    destruct (@clean_loop_ends faults net (with_ids stored) 0%Z
                (with_ids stored) Hdelete) as ([n1 t1] & Hloop).
    { intros [i r] Hin. apply Hprobe. cbn [snd].
      rewrite <- (with_ids_snd_from 1 stored). fold (with_ids stored).
      apply in_map_iff. now exists (i, r). }
    rewrite Hloop. cbn [fst snd]. intros [= -> Ht].
    apply (@clean_loop_removes faults net [] (with_ids stored)) in Hloop
      as [-> _]; [|apply with_ids_NoDup].
    cbn [app] in Ht. rewrite filter_snd in Ht. unfold with_ids in Ht.
    rewrite with_ids_snd_from in Ht. now symmetry.
Qed.

(** ** The run over the sites *)

(** What one turn of the loop of [main] does: nothing, or one call of
    [insert_news_data] on the records of the page. *)
Lemma crawl_site_cases rt db net www stored uni_name url :
  exists t,
    crawl_site rt db net www stored (uni_name, url) = Ok t /\
    (t = stored \/
     exists resp news_items n,
       www url 10%Z = Ok resp /\ ok resp = true /\
       extract_news rt (text resp) (before_last (chr "/") url)
       = Ok news_items /\
       insert_news_data rt db net stored (map (formatted uni_name) news_items)
       = Ok (n, t)).
Proof.
  unfold crawl_site, bind.
  destruct (www url 10%Z) as [resp|e] eqn:Hget.
  2:{ rewrite everything_is_an_exception. exists stored. tauto. }
  destruct (ok resp) eqn:Hok; cbn [negb]; [|exists stored; tauto].
  destruct (extract_news _ _ _) as [news_items|e] eqn:Hex.
  2:{ rewrite everything_is_an_exception. exists stored. tauto. }
  destruct (insert_news_data _ _ _ _ _) as [[n t]|e] eqn:Hin.
  2:{ rewrite everything_is_an_exception. exists stored. tauto. }
  exists t. split; [reflexivity|]. right. exists resp, news_items, n.
  cbn [snd]. tauto.
Qed.

Lemma crawl_site_fails rt db net www stored site :
  site_fails rt www site -> crawl_site rt db net www stored site = Ok stored.
Proof.
  destruct site as [uni_name url]. unfold site_fails, crawl_site, bind.
  cbn [snd].
  intros [(e & ->)|[(resp & -> & ->)|(resp & e & -> & -> & ->)]];
    cbn [negb]; try reflexivity; now rewrite everything_is_an_exception.
Qed.

Lemma crawl_sites_app rt db net www before after stored :
  crawl_sites rt db net www (before ++ after) stored
  = (stored' <- crawl_sites rt db net www before stored ;;
     crawl_sites rt db net www after stored').
Proof.
  revert stored. induction before as [|site rest IH]; intros stored;
    [reflexivity|].
  cbn [app crawl_sites]. unfold bind at 1 3.
  destruct (crawl_site rt db net www stored site); [apply IH|reflexivity].
Qed.

(** X17: a site whose request raises, whose answer has a status from 400
    to 599, or on whose page [extract_news] raises, leaves the table as it
    is and does not stop the loop: the run over the sites does what it
    does without that site, and so does [main]. *)
Theorem failing_site_is_skipped rt db faults net www before site after
  stored :
  site_fails rt www site ->
  crawl_site rt db net www stored site = Ok stored /\
  crawl_sites rt db net www (before ++ site :: after) stored
  = crawl_sites rt db net www (before ++ after) stored /\
  (sites = before ++ site :: after ->
   main rt db faults net www true stored
   = (stored' <- crawl_sites rt db net www (before ++ after) stored ;;
      cleaned <- clean_invalid_links db faults net stored' ;;
      Ok (snd cleaned))).
Proof.
  intros Hfail.
  assert (forall s, crawl_sites rt db net www (before ++ site :: after) s
                    = crawl_sites rt db net www (before ++ after) s) as Heq.
  { intros s. rewrite !crawl_sites_app. unfold bind.
    destruct (crawl_sites rt db net www before s) as [s'|e]; [|reflexivity].
    cbn [crawl_sites]. now rewrite crawl_site_fails. }
  split; [now apply crawl_site_fails|]. split; [apply Heq|].
  intros Hsites. unfold main. cbn [negb]. now rewrite Hsites, Heq.
Qed.

Lemma failing_site_is_skipped_witness :
  site_fails sample_runtime sample_web fudan_site /\
  crawl_site sample_runtime quiet_mysql open_network sample_web [] fudan_site
  = Ok [] /\
  crawl_sites sample_runtime quiet_mysql open_network sample_web
    (firstn 1 sites ++ fudan_site :: skipn 2 sites) []
  = crawl_sites sample_runtime quiet_mysql open_network sample_web
      (firstn 1 sites ++ skipn 2 sites) [] /\
  (sites = firstn 1 sites ++ fudan_site :: skipn 2 sites ->
   main sample_runtime quiet_mysql no_faults open_network sample_web true []
   = (stored' <- crawl_sites sample_runtime quiet_mysql open_network
                   sample_web (firstn 1 sites ++ skipn 2 sites) [] ;;
      cleaned <- clean_invalid_links quiet_mysql no_faults open_network
                   stored' ;;
      Ok (snd cleaned))).
Proof.
  assert (site_fails sample_runtime sample_web fudan_site) as Hfail.
  { right. right.
    exists {| status_code := 200; text := bad_href_html |}, value_error.
    repeat split; vm_compute; reflexivity. }
  split; [exact Hfail|].
  exact (@failing_site_is_skipped sample_runtime quiet_mysql no_faults
           open_network sample_web (firstn 1 sites) fudan_site
           (skipn 2 sites) [] Hfail).
Defined.

(** A property of the table that [insert_news_data] keeps on every batch
    of records of a page is kept by the loop of [main]. *)
Lemma crawl_sites_keeps (P : table -> Prop) rt db net www sites stored :
  (forall uni_name url resp news_items stored n t,
     In (uni_name, url) sites -> P stored ->
     extract_news rt (text resp) (before_last (chr "/") url) = Ok news_items ->
     insert_news_data rt db net stored (map (formatted uni_name) news_items)
     = Ok (n, t) -> P t) ->
  P stored ->
  exists t, crawl_sites rt db net www sites stored = Ok t /\ P t.
Proof.
  revert stored. induction sites as [|[uni_name url] rest IH];
    intros stored Hstep Hs; [now exists stored|].
  cbn [crawl_sites].
  destruct (crawl_site_cases rt db net www stored uni_name url)
    as (t & -> & Ht).
  cbn [bind]. apply IH.
  - intros u0 url0 resp items s0 n0 t0 Hin. apply Hstep. now right.
  - destruct Ht as [->|(resp & items & n & _ & _ & Hex & Hins)];
      [assumption|].
    eapply Hstep; [now left|exact Hs|exact Hex|exact Hins].
Qed.

(** What [insert_news_data] has done: rows were appended, each for an
    item of the batch whose link was reachable. *)
Lemma insert_news_data_appends rt db net stored data n t :
  insert_news_data rt db net stored data = Ok (n, t) ->
  exists added,
    t = stored ++ added /\
    forall r, In r added ->
      exists item, In item data /\ r = row_of rt item /\
        check_url_availability net (item_url item) default_timeout = Ok true.
Proof.
  unfold insert_news_data, bind.
  assert (exists added : table,
             stored = stored ++ added /\
             forall r, In r added ->
               exists item, In item data /\ r = row_of rt item /\
                 check_url_availability net (item_url item) default_timeout
                 = Ok true) as Hnone.
  { exists []. rewrite app_nil_r. split; [reflexivity|]. intros r []. }
  destruct (connect_error db) as [e|].
  { rewrite everything_is_an_exception. now intros [= _ <-]. }
  destruct (insert_loop rt db net data 0 stored) as [[n1 t1]|e] eqn:Hloop.
  - destruct (commit_error db) as [e|].
    { rewrite everything_is_an_exception. now intros [= _ <-]. }
    intros [= _ <-].
    apply insert_loop_appends in Hloop as (added & -> & _ & Hadded).
    exists added. split; [reflexivity|].
    intros r Hr. now destruct (Hadded r Hr) as [_ H].
  - rewrite everything_is_an_exception. now intros [= _ <-].
Qed.

Lemma parse_date_valid date_str d :
  parse_date date_str = Ok d -> valid_date (year d) (month d) (day d) = true.
Proof.
  unfold parse_date. intros H.
  apply parse_date_with_ok in H as (k & fmt & _ & H & _).
  now apply template_date_valid in H.
Qed.

(** The rows stored for the records of a page. *)
Lemma page_rows_crawled rt db net sites uni_name url html_content base_url
  news_items stored n t (stored0 : table) :
  In (uni_name, url) sites ->
  (forall r, In r stored -> In r stored0 \/ crawled rt net sites r) ->
  extract_news rt html_content base_url = Ok news_items ->
  insert_news_data rt db net stored (map (formatted uni_name) news_items)
  = Ok (n, t) ->
  forall r, In r t -> In r stored0 \/ crawled rt net sites r.
Proof.
  intros Hsite Hs Hex Hins r Hr.
  apply insert_news_data_appends in Hins as (added & -> & Hadded).
  apply in_app_or in Hr as [Hr|Hr]; [now apply Hs|]. right.
  destruct (Hadded r Hr) as (item & Hitem & -> & Hprobe).
  apply in_map_iff in Hitem as (rec & <- & Hrec).
  destruct (@extract_news_record_of_each rt html_content base_url news_items
              rec Hex Hrec) as (soup & lp & _ & _ & Hlp).
  destruct Hlp as (_ & Hacc & _ & Hurl & s & d & _ & Hparse & Hdate).
  unfold crawled, row_of, formatted.
  cbn [university_name row_title row_date link category item_university_name
       item_title item_date item_url].
  split; [exists (uni_name, url); now split|].
  split; [assumption|]. split; [reflexivity|]. split; [assumption|].
  split; [assumption|].
  exists d. split; [now apply parse_date_valid in Hparse|assumption].
Qed.

(** X18: [main] does not raise; when [create_news_table] failed it leaves
    the table as it is; and every row left at the end was stored before
    or is a crawled row: under the name of one of the sites, with a title
    of at least eight characters with a Chinese character, the category
    [categorize_news] gives that title, a link that is not empty and
    that the probe found reachable, and a date of the calendar written as
    year-month-day. *)
Theorem main_stores_only_crawled_rows rt db faults net www table_ready
  stored :
  exists t,
    main rt db faults net www table_ready stored = Ok t /\
    (table_ready = false -> t = stored) /\
    forall r, In r t -> In r stored \/ crawled rt net sites r.
Proof.
  unfold main. destruct table_ready; cbn [negb].
  2:{ exists stored. split; [reflexivity|]. split; [reflexivity|]. tauto. }
  destruct (@crawl_sites_keeps
              (fun t => forall r, In r t -> In r stored \/ crawled rt net sites r)
              rt db net www sites stored) as (t1 & -> & H1).
  { intros uni_name url resp items s0 n t Hin Hs Hex Hins.
    eapply page_rows_crawled; eassumption. }
  { tauto. }
  cbn [bind].
  destruct (clean_invalid_links_cases db faults net t1)
    as (n & t & -> & Ht).
  cbn [bind snd]. exists t. split; [reflexivity|]. split; [discriminate|].
  intros r Hr. apply H1.
  destruct Ht as [[_ ->]|(_ & -> & _)]; [assumption|].
  now apply filter_In in Hr.
Qed.

Lemma title_taken_filter db (f : row -> bool) t r :
  title_taken db (filter f t) r = true -> title_taken db t r = true.
Proof.
  unfold title_taken. rewrite !existsb_exists.
  intros (x & Hx & H). apply filter_In in Hx as [Hx _]. now exists x.
Qed.

Lemma unique_titles_filter db (f : row -> bool) t :
  unique_titles db t = true -> unique_titles db (filter f t) = true.
Proof.
  induction t as [|r t IH]; cbn [unique_titles filter]; [reflexivity|].
  rewrite andb_true_iff, negb_true_iff. intros [Hr Ht].
  destruct (f r); [|now apply IH].
  cbn [unique_titles]. rewrite IH by assumption.
  rewrite andb_true_r, negb_true_iff.
  destruct (title_taken db (filter f t) r) eqn:H; [|reflexivity].
  apply title_taken_filter in H. congruence.
Qed.

(** X19: [main] keeps the titles unique: when no two stored rows have
    the same title under the collation of the server, no two rows have at
    the end of the run. *)
Theorem main_keeps_titles_unique rt db faults net www table_ready stored t :
  unique_titles db stored = true ->
  main rt db faults net www table_ready stored = Ok t ->
  unique_titles db t = true.
Proof.
  intros Hs. unfold main. destruct table_ready; cbn [negb];
    [|now intros [= <-]].
  destruct (@crawl_sites_keeps (fun t => unique_titles db t = true)
              rt db net www sites stored) as (t1 & -> & H1);
    [|assumption|].
  { intros uni_name url resp items s0 n t0 _ Hs0 _ Hins.
    apply (@insert_news_data_keeps (fun t => unique_titles db t = true)
             rt db net s0 (map (formatted uni_name) items) n t0);
      try assumption.
    intros t2 r. apply unique_titles_snoc. }
  cbn [bind].
  destruct (clean_invalid_links_cases db faults net t1)
    as (n & t' & -> & Ht).
  cbn [bind snd]. intros [= <-].
  destruct Ht as [[_ ->]|(_ & -> & _)]; [assumption|].
  now apply unique_titles_filter.
Qed.

Lemma main_keeps_titles_unique_witness :
  main sample_runtime quiet_mysql no_faults open_network sample_web true []
  = Ok sample_table /\
  unique_titles quiet_mysql sample_table = true.
Proof.
  split; [vm_compute; reflexivity|].
  apply (@main_keeps_titles_unique sample_runtime quiet_mysql no_faults
           open_network sample_web true [] sample_table);
    vm_compute; reflexivity.
Defined.

(** ** Dates come from the page *)




(** ** Every reachable title is stored *)

(** Without a failure of a probe or of an [INSERT] the loop ends
    normally. *)
Lemma insert_loop_ends rt db net data n t :
  (forall t r, statement_error db t r = None) ->
  (forall item, In item data ->
     is_ok (check_url_availability net (item_url item) default_timeout)
     = true) ->
  exists done, insert_loop rt db net data n t = Ok done.
Proof.
  intros Hst. revert n t. induction data as [|item rest IH]; intros n t Hp;
    [now eexists|].
  destruct (insert_loop_step rt db net item rest n t)
    as [->|[(_ & _ & _ & ->)|(e & He)]].
  - apply IH. intros it Hit. apply Hp. now right.
  - apply IH. intros it Hit. apply Hp. now right.
  - exfalso. revert He. cbn [insert_loop]. unfold bind, execute_insert.
    pose proof (Hp item (or_introl eq_refl)) as Hi.
    destruct (check_url_availability _ _ _) as [[|]|e']; [| |discriminate];
      cbn [negb].
    + rewrite Hst.
      destruct (title_taken db t (row_of rt item)).
      * change (catches [IntegrityError] duplicate_entry) with true.
        change (exn_code duplicate_entry =? 1062)%Z with true. cbv iota.
        intros He.
        destruct (IH n t) as (done & Hd); [|congruence].
        intros it Hit. apply Hp. now right.
      * intros He.
        destruct (IH (n + 1)%Z (t ++ [row_of rt item])) as (done & Hd);
          [|congruence].
        intros it Hit. apply Hp. now right.
    + intros He. destruct (IH n t) as (done & Hd); [|congruence].
      intros it Hit. apply Hp. now right.
Qed.

(** X15: on a server without failures, when no probe raises past
    [check_url_availability], the title of every item of the batch with a
    reachable link is in the table after [insert_news_data]. *)
Theorem insert_news_data_stores_every_reachable_title rt db net stored data :
  connect_error db = None -> commit_error db = None ->
  (forall t r, statement_error db t r = None) ->
  (forall item, In item data ->
     is_ok (check_url_availability net (item_url item) default_timeout)
     = true) ->
  exists n t,
    insert_news_data rt db net stored data = Ok (n, t) /\
    forall item, In item data ->
      check_url_availability net (item_url item) default_timeout = Ok true ->
      title_taken db t (row_of rt item) = true.
Proof.
  intros Hconnect Hcommit Hst Hprobe. unfold insert_news_data.
  rewrite Hconnect, Hcommit.
  destruct (@insert_loop_ends rt db net data 0%Z stored Hst Hprobe)
    as ([n t] & Hloop).
  rewrite Hloop. cbn [bind]. exists n, t. split; [reflexivity|].
  intros item Hin Hreach.
  destruct (@insert_loop_settles rt db net data 0%Z stored n t) with (item := item)
    as [Hf|[_ Ht]]; try assumption; [|congruence].
  intros t0 r e He. rewrite Hst in He. discriminate.
Qed.

Lemma insert_news_data_stores_every_reachable_title_witness :
  exists n t,
    insert_news_data sample_runtime quiet_mysql patchy_network []
      [shu_item "上海大学举办学术讲座通知" "https://news.shu.edu.cn/news/3.htm";
       shu_item "上海大学发布最新校园公告" "https://gone.example/2.htm";
       shu_item "上海大学举办学术讲座通知" "https://news.shu.edu.cn/news/4.htm"]
    = Ok (n, t) /\
    forall item,
      In item
        [shu_item "上海大学举办学术讲座通知" "https://news.shu.edu.cn/news/3.htm";
         shu_item "上海大学发布最新校园公告" "https://gone.example/2.htm";
         shu_item "上海大学举办学术讲座通知" "https://news.shu.edu.cn/news/4.htm"] ->
      check_url_availability patchy_network (item_url item) default_timeout
      = Ok true ->
      title_taken quiet_mysql t (row_of sample_runtime item) = true.
Proof.
  apply (@insert_news_data_stores_every_reachable_title sample_runtime
           quiet_mysql patchy_network []); try reflexivity.
  intros item [<-|[<-|[<-|[]]]]; vm_compute; reflexivity.
Defined.

(** ** How links are resolved *)

Lemma split_first_none c s :
  forallb (fun x => negb (x =? c)%N) s = true -> split_first c s = None.
Proof.
  induction s as [|x s IH]; cbn [forallb split_first]; [reflexivity|].
  rewrite andb_true_iff, negb_true_iff. intros [-> Hs]. now rewrite IH.
Qed.

Lemma mem_chr_none c s :
  forallb (fun x => negb (x =? c)%N) s = true -> mem_chr c s = false.
Proof.
  unfold mem_chr. induction s as [|x s IH]; cbn [forallb existsb];
    [reflexivity|].
  rewrite andb_true_iff, negb_true_iff, N.eqb_sym. intros [-> Hs].
  now rewrite IH.
Qed.

Lemma forallb_weaken (A : Type) (f g : A -> bool) l :
  (forall x, f x = true -> g x = true) ->
  forallb f l = true -> forallb g l = true.
Proof.
  intros H. rewrite !forallb_forall. intros Hf x Hx. apply H, Hf, Hx.
Qed.

Lemma filter_all (A : Type) (f : A -> bool) l :
  forallb f l = true -> filter f l = l.
Proof.
  induction l as [|x l IH]; cbn [forallb filter]; [reflexivity|].
  rewrite andb_true_iff. intros [-> Hl]. now rewrite IH.
Qed.

Lemma split_on_not_nil c s : split_on c s <> [].
Proof.
  destruct s as [|x s]; cbn [split_on]; [discriminate|].
  destruct (x =? c)%N; [discriminate|].
  destruct (split_on c s); discriminate.
Qed.

Lemma join_cons c p parts :
  parts <> [] -> join c (p :: parts) = p ++ c :: join c parts.
Proof. destruct parts; [congruence|reflexivity]. Qed.

Lemma join_head c x seg segs :
  join c ((x :: seg) :: segs) = x :: join c (seg :: segs).
Proof. destruct segs; reflexivity. Qed.

(** [c.join(s.split(c))] is [s]. *)
Lemma join_split_on c s : join c (split_on c s) = s.
Proof.
  induction s as [|x s IH]; cbn [split_on]; [reflexivity|].
  pose proof (@split_on_not_nil c s) as Hne.
  destruct (x =? c)%N eqn:Hx.
  - apply N.eqb_eq in Hx as ->. rewrite join_cons by assumption.
    now rewrite IH.
  - destruct (split_on c s) as [|seg segs]; [congruence|].
    rewrite join_head. f_equal. exact IH.
Qed.

Lemma resolve_no_dots segments resolved_path :
  forallb (fun seg => negb (dot_segment seg)) segments = true ->
  resolve segments resolved_path = resolved_path ++ segments.
Proof.
  revert resolved_path. induction segments as [|seg rest IH];
    intros resolved_path; cbn [forallb resolve]; [now rewrite app_nil_r|].
  rewrite andb_true_iff, negb_true_iff. unfold dot_segment.
  rewrite orb_false_iff. intros [[H1 H2] Hrest].
  rewrite H1, H2, IH by assumption. now rewrite <- app_assoc.
Qed.

Lemma last_no_dot segments :
  segments <> [] ->
  forallb (fun seg => negb (dot_segment seg)) segments = true ->
  dot_segment (last segments []) = false.
Proof.
  intros Hne H. rewrite forallb_forall in H.
  apply negb_true_iff, H.
  destruct segments as [|seg rest]; [congruence|].
  apply (@exists_last _ (seg :: rest)) in Hne as (l & x & ->).
  rewrite last_last. apply in_or_app. right. now left.
Qed.

Lemma special_chr_parts href c :
  forallb (fun c => negb (special_chr c)) href = true ->
  In c [chr "#"; chr "?"; chr ";"] ->
  forallb (fun x => negb (x =? c)%N) href = true.
Proof.
  intros H Hc. revert H. apply forallb_weaken. intros x.
  unfold special_chr. rewrite !negb_true_iff, !orb_false_iff.
  intros [[[_ H1] H2] H3]. destruct Hc as [<-|[<-|[<-|[]]]]; assumption.
Qed.

Lemma special_chr_unsafe href :
  forallb (fun c => negb (special_chr c)) href = true ->
  forallb (fun c => negb (unsafe_byte c)) href = true.
Proof.
  apply forallb_weaken. intros x.
  unfold special_chr. rewrite !negb_true_iff, !orb_false_iff. tauto.
Qed.

Lemma split_first_head c x s a pre post :
  split_first c (x :: s) = Some (a :: pre, post) -> a = x.
Proof.
  cbn [split_first]. destruct (x =? c)%N; [discriminate|].
  destruct (split_first c s) as [[? ?]|]; [|discriminate]. now intros [= -> _ _].
Qed.

(** A path from the root is split into the path and nothing else. *)
Lemma urlparse_rooted rt href sch :
  web_scheme sch -> rooted href = true ->
  urlparse rt href sch
  = Ok {| scheme := sch; netloc := []; path := href; params := [];
          query := []; fragment := [] |}.
Proof.
  intros Hsch. destruct href as [|a rest]; [discriminate|].
  cbn [rooted]. rewrite !andb_true_iff, negb_true_iff, N.eqb_eq.
  intros [[[-> Hslash] Hspecial] _].
  unfold urlparse, urlsplit.
  change (lstrip_by c0_or_space (chr "/" :: rest)) with (chr "/" :: rest).
  rewrite (@filter_all _ _ _ (@special_chr_unsafe _ Hspecial)).
  assert (filter (fun c => negb (unsafe_byte c))
            (rev (lstrip_by c0_or_space (rev (lstrip_by c0_or_space sch))))
          = sch) as -> by (destruct Hsch as [-> | ->]; vm_compute; reflexivity).
  match goal with
  | |- context [let (_, _) := ?X in _] => destruct X as [sch' url2] eqn:Hs
  end.
  assert (sch' = sch /\ url2 = chr "/" :: rest) as [-> ->].
  { destruct (split_first _ _) as [[[|c pre] post]|] eqn:Hf;
      try (injection Hs as <- <-; tauto).
    apply split_first_head in Hf as ->.
    change (ascii_alpha (chr "/")) with false in Hs. cbn [andb] in Hs.
    injection Hs as <- <-. tauto. }
  change (startswith (u "//") (chr "/" :: rest))
    with (startswith (u "/") rest).
  rewrite Hslash. cbn [mem_chr existsb xorb andb nonempty].
  rewrite (@split_first_none _ _
             (@special_chr_parts _ (chr "#") Hspecial ltac:(simpl; tauto))).
  rewrite (@split_first_none _ _
             (@special_chr_parts _ (chr "?") Hspecial ltac:(simpl; tauto))).
  cbn [bind sp_scheme sp_netloc sp_path sp_query sp_fragment].
  rewrite (@mem_chr_none _ _
             (@special_chr_parts _ (chr ";") Hspecial ltac:(simpl; tauto))).
  now rewrite andb_false_r.
Qed.

Lemma urljoin_rooted rt base b href :
  urlparse rt base [] = Ok b ->
  web_scheme (scheme b) -> nonempty (netloc b) = true ->
  rooted href = true ->
  urljoin rt base href = Ok (scheme b ++ u "://" ++ netloc b ++ href).
Proof.
  intros Hb Hsch Hnet Hrooted. unfold urljoin.
  destruct base as [|c base]; [|cbn [nonempty negb]].
  { revert Hb Hnet. vm_compute. intros [= <-]. discriminate. }
  destruct href as [|a rest] eqn:Hhref; [discriminate|].
  cbn [nonempty negb]. rewrite <- Hhref in *. rewrite Hb. cbn [bind].
  rewrite (@urlparse_rooted rt href (scheme b) Hsch Hrooted). cbn [bind].
  cbn [scheme netloc path params query fragment].
  rewrite str_eqb_refl. cbn [negb orb].
  assert (str_in (scheme b) uses_relative = true) as ->
    by (destruct Hsch as [-> | ->]; vm_compute; reflexivity).
  assert (str_in (scheme b) uses_netloc = true) as Hnl
    by (destruct Hsch as [-> | ->]; vm_compute; reflexivity).
  rewrite Hnl. cbn [negb nonempty andb].
  assert (nonempty href = true) as -> by now rewrite Hhref.
  cbn [negb andb].
  assert (startswith (u "/") href = true) as Hstart.
  { revert Hrooted. rewrite Hhref. cbn [rooted].
    rewrite !andb_true_iff, N.eqb_eq. intros [[[-> _] _] _]. reflexivity. }
  rewrite Hstart.
  assert (forallb (fun seg => negb (dot_segment seg))
            (split_on (chr "/") href) = true) as Hdots.
  { revert Hrooted. rewrite Hhref. cbn [rooted]. rewrite !andb_true_iff.
    tauto. }
  rewrite (@resolve_no_dots _ [] Hdots). cbn [app].
  pose proof (@last_no_dot _ (@split_on_not_nil (chr "/") href) Hdots) as Hlast.
  unfold dot_segment in Hlast. rewrite Hlast.
  rewrite join_split_on.
  assert (nonempty href = true) as -> by now rewrite Hhref.
  unfold urlunparse, urlunsplit.
  cbn [scheme netloc path params query fragment nonempty].
  rewrite Hnet, Hstart. cbn [orb andb negb].
  assert (nonempty (scheme b) = true) as ->
    by (destruct Hsch as [-> | ->]; reflexivity).
  rewrite andb_false_r. reflexivity.
Qed.

Lemma split_on_none c s :
  forallb (fun x => negb (x =? c)%N) s = true -> split_on c s = [s].
Proof.
  induction s as [|x s IH]; cbn [forallb split_on]; [reflexivity|].
  rewrite andb_true_iff, negb_true_iff. intros [-> Hs]. now rewrite IH.
Qed.

Lemma simple_name_parts name c :
  simple_name name = true ->
  In c [chr "#"; chr "?"; chr ";"; chr "/"; chr ":"] ->
  forallb (fun x => negb (x =? c)%N) name = true.
Proof.
  destruct name as [|a rest]; [discriminate|]. cbn [simple_name].
  rewrite !andb_true_iff. intros [[_ H] _] Hc. revert H.
  apply forallb_weaken. intros x.
  unfold special_chr. rewrite !negb_true_iff, !orb_false_iff.
  intros [[[[[_ H1] H2] H3] H4] H5].
  destruct Hc as [<-|[<-|[<-|[<-|[<-|[]]]]]]; assumption.
Qed.

Lemma simple_name_unsafe name :
  simple_name name = true ->
  forallb (fun c => negb (unsafe_byte c)) name = true.
Proof.
  destruct name as [|a rest]; [discriminate|]. cbn [simple_name].
  rewrite !andb_true_iff. intros [[_ H] _]. revert H.
  apply forallb_weaken. intros x.
  unfold special_chr. rewrite !negb_true_iff, !orb_false_iff. tauto.
Qed.

(** The name of a file is split into the path and nothing else. *)
Lemma urlparse_simple_name rt name sch :
  web_scheme sch -> simple_name name = true ->
  urlparse rt name sch
  = Ok {| scheme := sch; netloc := []; path := name; params := [];
          query := []; fragment := [] |}.
Proof.
  intros Hsch Hname.
  pose proof (fun c H => @simple_name_parts name c Hname H) as Hparts.
  pose proof (@simple_name_unsafe name Hname) as Hunsafe.
  destruct name as [|a rest]; [discriminate|].
  revert Hname. cbn [simple_name]. rewrite !andb_true_iff, negb_true_iff.
  intros [[Hblank _] _].
  unfold urlparse, urlsplit. cbn [lstrip_by]. rewrite Hblank.
  rewrite (@filter_all _ _ _ Hunsafe).
  assert (filter (fun c => negb (unsafe_byte c))
            (rev (lstrip_by c0_or_space (rev (lstrip_by c0_or_space sch))))
          = sch) as -> by (destruct Hsch as [-> | ->]; vm_compute; reflexivity).
  rewrite (@split_first_none (chr ":") _ (Hparts (chr ":") ltac:(simpl; tauto))).
  assert (startswith (u "//") (a :: rest) = false) as ->.
  { pose proof (Hparts (chr "/") ltac:(simpl; tauto)) as H.
    cbn [forallb] in H. apply andb_true_iff in H as [H _].
    apply negb_true_iff in H. rewrite N.eqb_sym in H.
    change (startswith (u "//") (a :: rest))
      with ((chr "/" =? a)%N && startswith (u "/") rest).
    now rewrite H. }
  cbn [mem_chr existsb xorb andb nonempty].
  rewrite (@split_first_none (chr "#") _ (Hparts (chr "#") ltac:(simpl; tauto))).
  rewrite (@split_first_none (chr "?") _ (Hparts (chr "?") ltac:(simpl; tauto))).
  cbn [bind sp_scheme sp_netloc sp_path sp_query sp_fragment].
  rewrite (@mem_chr_none (chr ";") _ (Hparts (chr ";") ltac:(simpl; tauto))).
  now rewrite andb_false_r.
Qed.

(** Against a base without a directory the name of a file is put at the
    root of the host. *)
Lemma urljoin_simple_name rt base b name :
  urlparse rt base [] = Ok b ->
  web_scheme (scheme b) -> nonempty (netloc b) = true ->
  kept_segments (path b) = [[]] ->
  simple_name name = true ->
  urljoin rt base name
  = Ok (scheme b ++ u "://" ++ netloc b ++ u "/" ++ name).
Proof.
  intros Hb Hsch Hnet Hkept Hname. unfold urljoin.
  destruct base as [|c base]; [|cbn [nonempty negb]].
  { revert Hb Hnet. vm_compute. intros [= <-]. discriminate. }
  pose proof (fun c H => @simple_name_parts name c Hname H) as Hparts.
  assert (dot_segment name = false) as Hdot.
  { destruct name; [discriminate|]. revert Hname. cbn [simple_name].
    rewrite !andb_true_iff, !negb_true_iff. tauto. }
  assert (nonempty name = true) as Hne by (now destruct name).
  rewrite Hne. cbn [negb]. rewrite Hb. cbn [bind].
  rewrite (@urlparse_simple_name rt name (scheme b) Hsch Hname). cbn [bind].
  cbn [scheme netloc path params query fragment].
  rewrite str_eqb_refl. cbn [negb orb].
  assert (str_in (scheme b) uses_relative = true) as ->
    by (destruct Hsch as [-> | ->]; vm_compute; reflexivity).
  assert (str_in (scheme b) uses_netloc = true) as Hnl
    by (destruct Hsch as [-> | ->]; vm_compute; reflexivity).
  rewrite Hnl, Hne. cbn [negb nonempty andb].
  assert (startswith (u "/") name = false) as ->.
  { pose proof (Hparts (chr "/") ltac:(simpl; tauto)) as H.
    destruct name as [|a rest]; [discriminate|].
    cbn [forallb] in H. apply andb_true_iff in H as [H _].
    apply negb_true_iff in H. rewrite N.eqb_sym in H.
    change (startswith (u "/") (a :: rest)) with ((chr "/" =? a)%N && true).
    now rewrite H. }
  fold (kept_segments (path b)). rewrite Hkept.
  rewrite (@split_on_none (chr "/") name (Hparts (chr "/") ltac:(simpl; tauto))).
  cbn [app drop_inner_empty rev filter last resolve].
  change (str_eqb [] (u "..")) with false.
  change (str_eqb [] (u ".")) with false. cbv iota. cbn [app].
  unfold dot_segment in Hdot. apply orb_false_iff in Hdot as [Hd1 Hd2].
  rewrite Hd1, Hd2. cbn [orb join app nonempty].
  unfold urlunparse, urlunsplit.
  cbn [scheme netloc path params query fragment nonempty].
  rewrite Hnet. cbn [orb andb negb].
  change (startswith (u "/") (chr "/" :: name)) with true. cbn [negb andb].
  assert (nonempty (scheme b) = true) as ->
    by (destruct Hsch as [-> | ->]; reflexivity).
  reflexivity.
Qed.

Lemma sites_bases_at_root rt :
  forallb (base_at_root rt) sites = true.
Proof. vm_compute. reflexivity. Qed.

(** X10: against a base with the scheme [http] or [https] and a host,
    [urljoin] turns an [href] that is a path from the root (one leading
    [/], no [#], [?], [;], tab or line break, no segment [.] or [..]) into
    scheme, [://], host and that path, whatever the path of the base. *)
Theorem rooted_href_is_joined_to_the_host rt base b href :
  urlparse rt base [] = Ok b ->
  web_scheme (scheme b) -> nonempty (netloc b) = true ->
  rooted href = true ->
  urljoin rt base href = Ok (scheme b ++ u "://" ++ netloc b ++ href).
Proof. apply urljoin_rooted. Qed.

(** X11: for every site of [sites], with the base [main] cuts from its
    address ([url.rsplit('/', 1)[0]]), a path from the root is joined to
    the scheme and host of the site, and so is the name of a file beside
    the page: it is put at the root of the host, not in the directory of
    the page. *)
Theorem site_links_are_resolved_at_the_root_of_the_host rt site :
  In site sites ->
  exists page,
    urlparse rt (snd site) [] = Ok page /\
    (forall href, rooted href = true ->
       urljoin rt (before_last (chr "/") (snd site)) href
       = Ok (scheme page ++ u "://" ++ netloc page ++ href)) /\
    (forall name, simple_name name = true ->
       urljoin rt (before_last (chr "/") (snd site)) name
       = Ok (scheme page ++ u "://" ++ netloc page ++ u "/" ++ name)).
Proof.
  intros Hin. pose proof (sites_bases_at_root rt) as H.
  rewrite forallb_forall in H. specialize (H site Hin).
  unfold base_at_root in H.
  destruct (urlparse rt (snd site) []) as [p|e]; [|discriminate].
  destruct (urlparse rt (before_last _ _) []) as [b|e] eqn:Hb;
    [|discriminate].
  rewrite !andb_true_iff in H.
  destruct H as [[[[Hs Hn] Hhttps] Hnet] Hkept].
  apply str_eqb_eq in Hs, Hn, Hhttps.
  assert (web_scheme (scheme b)) as Hweb by (now left).
  exists p. split; [reflexivity|]. split.
  - intros href Hhref. rewrite Hs, Hn.
    now apply urljoin_rooted with (b := b).
  - intros name Hname. rewrite Hs, Hn.
    apply urljoin_simple_name with (b := b); try assumption.
    destruct (kept_segments (path b)) as [|[|? ?] [|? ?]]; try discriminate.
    reflexivity.
Qed.

Lemma site_links_are_resolved_at_the_root_of_the_host_witness :
  exists page,
    urlparse sample_runtime (snd fudan_site) [] = Ok page /\
    (forall href, rooted href = true ->
       urljoin sample_runtime (before_last (chr "/") (snd fudan_site)) href
       = Ok (scheme page ++ u "://" ++ netloc page ++ href)) /\
    (forall name, simple_name name = true ->
       urljoin sample_runtime (before_last (chr "/") (snd fudan_site)) name
       = Ok (scheme page ++ u "://" ++ netloc page ++ u "/" ++ name)).
Proof.
  apply (@site_links_are_resolved_at_the_root_of_the_host sample_runtime
           fudan_site).
  vm_compute. right. left. reflexivity.
Defined.

Lemma rooted_href_is_joined_to_the_host_witness :
  urljoin sample_runtime shu_cut_base (u "/news/1.htm")
  = Ok (u "https://news.shu.edu.cn/news/1.htm").
Proof.
  apply (@rooted_href_is_joined_to_the_host sample_runtime shu_cut_base
           shu_cut_parts (u "/news/1.htm"));
    [vm_compute; reflexivity|now left|reflexivity|vm_compute; reflexivity].
Defined.

(** ** Links that share a date *)

Lemma appended_record rt base_url link parents news_list n :
  extract_link rt base_url link parents news_list = Ok (news_list ++ [n]) ->
  record_of rt base_url (link, parents) n.
Proof.
  intros H. apply extract_link_record in H as [(n' & Hn & H)|[_ H]].
  - apply app_inv_head in H. now injection H as ->.
  - apply (f_equal (@length news)) in H. rewrite length_app in H.
    simpl in H. lia.
Qed.

(** X8: two links with the same parents whose own texts hold no date
    get the same date, the one found from their parent upwards: in one
    turn of the loop each, the records appended carry equal dates. *)
Theorem links_without_a_date_of_their_own_share_one rt base_url link1 link2
  parents list1 list2 n1 n2 :
  find_date (get_text link1) = None ->
  find_date (get_text link2) = None ->
  extract_link rt base_url link1 parents list1 = Ok (list1 ++ [n1]) ->
  extract_link rt base_url link2 parents list2 = Ok (list2 ++ [n2]) ->
  date n1 = date n2 /\
  exists date_str date_obj,
    date_near parents = Some date_str /\ parse_date date_str = Ok date_obj /\
    date n1 = strftime_ymd date_obj.
Proof.
  intros H1 H2 E1 E2.
  apply appended_record in E1, E2.
  destruct E1 as (_ & _ & _ & _ & s1 & d1 & Hs1 & Hp1 & Hd1).
  destruct E2 as (_ & _ & _ & _ & s2 & d2 & Hs2 & Hp2 & Hd2).
  cbn [fst snd] in Hs1, Hs2.
  apply date_near_nearest in Hs1, Hs2. cbn [date_near] in Hs1, Hs2.
  rewrite H1 in Hs1. rewrite H2 in Hs2.
  assert (s2 = s1) as -> by congruence.
  assert (d2 = d1) as -> by congruence.
  split; [congruence|]. now exists s1, d1.
Qed.

Lemma links_without_a_date_of_their_own_share_one_witness :
  extract_link sample_runtime shu_base lecture_link
    [shared_div; document [shared_div]] [] = Ok [lecture_news] /\
  extract_link sample_runtime shu_base notice_link
    [shared_div; document [shared_div]] [lecture_news]
  = Ok [lecture_news; notice_news] /\
  date lecture_news = date notice_news /\
  exists date_str date_obj,
    date_near [shared_div; document [shared_div]] = Some date_str /\
    parse_date date_str = Ok date_obj /\
    date lecture_news = strftime_ymd date_obj.
Proof.
  split; [vm_compute; reflexivity|]. split; [vm_compute; reflexivity|].
  apply (@links_without_a_date_of_their_own_share_one sample_runtime shu_base
           lecture_link notice_link [shared_div; document [shared_div]]
           [] [lecture_news] lecture_news notice_news);
    vm_compute; reflexivity.
Defined.
